(** * my-shell: a shallow embedding of [my-shell.c] and its specification

    The program is a small interactive shell written in C: [parse] splits a
    command line into an argument vector, [handle_builtin] intercepts
    [exit], [quit], [cd] and [chdir], [execute] runs everything else through
    fork/execvp, and [main] is the read loop.

    C strings are modelled by [string] (the characters before the
    terminating NUL), the [char **] argument vector by a list of pointer
    cells of length [MAX_ARGS] that is read and written by index, integers by
    [Z], and undefined behaviour of the C program (a store outside the
    allocated array, a NULL pointer handed to [strcmp]) by an explicit
    [Fault] result. *)

From Stdlib Require Import ZArith Lia Ascii String.
From stdpp Require Import list strings gmap.

Local Open Scope string_scope.
Local Open Scope Z_scope.

(** ** Results of running C code *)

Inductive fault : Type :=
| NullDeref      (* a NULL pointer is dereferenced *)
| OutOfBounds    (* an access outside an allocated object *)
| UninitRead.    (* an indeterminate value is read *)

(** How a process stops other than by returning from [main]. *)
Inductive halt : Type :=
| Exited (status : Z)                          (* exit(status) *)
| Replaced (file : string) (argv : list string). (* execvp succeeded *)

Inductive result (A : Type) : Type :=
| Ret (a : A)
| Halt (h : halt)
| Fault (f : fault)
| Diverge.       (* the loop budget of the model ran out *)

Arguments Ret {A} a.
Arguments Halt {A} h.
Arguments Fault {A} f.
Arguments Diverge {A}.

Definition bind {A B : Type} (m : result A) (k : A -> result B) : result B :=
  match m with
  | Ret a => k a
  | Halt h => Halt h
  | Fault f => Fault f
  | Diverge => Diverge
  end.

Notation "'let*' x ':=' m 'in' k" := (bind m (fun x => k))
  (at level 10, x pattern, m at level 100, k at level 200, only parsing).

(** ** C strings and [strtok] *)

Module CStr.

Definition SP : ascii := " "%char.
Definition LF : ascii := "010"%char.
Definition NUL : ascii := "000"%char.

(** [s + strspn(s, " ")]: the string past its leading delimiters. *)
Fixpoint skip_delims (s : string) : string :=
  match s with
  | String c s' => if Ascii.eqb c SP then skip_delims s' else s
  | EmptyString => s
  end.

(** [strcspn(s, " ")] / [strpbrk]: the characters before the first delimiter,
    and the string from that delimiter on. *)
Fixpoint span_token (s : string) : string * string :=
  match s with
  | String c s' =>
      if Ascii.eqb c SP then (EmptyString, s)
      else let (t, r) := span_token s' in (String c t, r)
  | EmptyString => (EmptyString, EmptyString)
  end.

(** One call of [strtok(_, " ")] on the string at the scan position: the
    token returned (or NULL) and the scan position saved for the next call.
    The first call passes the line itself, the later ones pass NULL and
    resume at the saved position. *)
Definition strtok (s : string) : option string * string :=
  match skip_delims s with
  | EmptyString => (None, EmptyString)
  | s1 =>
      let (tok, r) := span_token s1 in
      (Some tok, match r with
                 | EmptyString => EmptyString
                 | String _ r' => r'
                 end)
  end.

(** The C string held by a buffer: its characters before the first NUL. *)
Fixpoint c_str (buf : string) : string :=
  match buf with
  | String c buf' => if Ascii.eqb c NUL then EmptyString else String c (c_str buf')
  | EmptyString => EmptyString
  end.

End CStr.

(** ** The argument vector *)

Definition MAX_ARGS : nat := 128.

(** A [char *] cell of the array: not yet written, NULL, or a string. *)
Inductive ptr : Type :=
| Undef
| NULL
| Str (s : string).

(** [malloc] of room for [n] pointers, taken to succeed: [n] cells, none
    written yet. *)
Definition malloc_ptrs (n : nat) : list ptr := replicate n Undef.

(** [a[i] = v]: undefined outside the allocation. *)
Definition store (a : list ptr) (i : nat) (v : ptr) : result (list ptr) :=
  if decide (i < length a)%nat then Ret (<[i:=v]> a) else Fault OutOfBounds.

(** [a[i]] *)
Definition load (a : list ptr) (i : nat) : result ptr :=
  match a !! i with
  | Some Undef => Fault UninitRead
  | Some p => Ret p
  | None => Fault OutOfBounds
  end.

(** The loop of [parse]; [token] is the current token, [saved] the scan
    position [strtok] keeps between calls. *)
Fixpoint parse_loop (fuel : nat) (token : option string) (saved : string)
    (args : list ptr) (argCount : nat) (background : Z)
  : result (list ptr * nat * Z) :=
  match token with
  | None => Ret (args, argCount, background)
  | Some tok =>
      if String.eqb tok "#" then Ret (args, argCount, 1)
      else
        match fuel with
        | O => Diverge
        | S fuel' =>
            let* args' := store args argCount (Str tok) in
            let (token', saved') := CStr.strtok saved in
            parse_loop fuel' token' saved' args' (S argCount) background
        end
  end.

Definition parse (line : string) : result (list ptr * Z) :=
  let args := malloc_ptrs MAX_ARGS in
  let (token, saved) := CStr.strtok line in
  let* (args, argCount, background) :=
    parse_loop (String.length line) token saved args 0%nat 0 in
  let* args := store args argCount NULL in
  Ret (args, background).

(** The sequence of strings an argument vector holds, up to its NULL. *)
Fixpoint argv_of (a : list ptr) : option (list string) :=
  match a with
  | Str s :: a' => cons s <$> argv_of a'
  | NULL :: _ => Some []
  | _ => None
  end.

(** ** The process and its environment *)

(** What the shell process itself does that can be seen from outside, in
    order: its own calls. What a child writes, be it the copy of the shell's
    unwritten output that the [exit] of a child lets out a second time, is
    the child's and does not stand here. *)
Inductive event : Type :=
| EvPrompt                         (* printf("marinelli: ") *)
| EvPerror (what : string)         (* perror(what) *)
| EvChdir (path : option string)   (* chdir(path); [None] is a NULL path *)
| EvFork                           (* fork() *)
| EvWaitpid (pid : Z)              (* waitpid(pid, &status, 0) *)
| EvStarted (pid : Z).             (* "Started background process with PID" *)

(** What [fork] gives the shell, which is the parent of every process it
    spawns: an error, or the identifier of the new child. The child shares
    the shell's standard input: a program that reads takes input away, and
    the [exit] of a child whose [execvp] failed can move the shared file
    position back, so that lines the shell had already taken in are
    delivered to it again. [ForkChild] is a child that leaves the input
    alone, [ForkChildInput pid input] one after which [input] is what is
    left for the shell to read. *)
Inductive fork_ret : Type :=
| ForkFailed
| ForkChild (pid : positive)
| ForkChildInput (pid : positive) (input : string).

Definition pid_of (r : fork_ret) : Z :=
  match r with
  | ForkFailed => -1
  | ForkChild p => Z.pos p
  | ForkChildInput p _ => Z.pos p
  end.

(** What the child does to the input the shell has still to read. *)
Definition child_input (r : fork_ret) (unread : string) : string :=
  match r with
  | ForkChildInput _ input => input
  | _ => unread
  end.

(** The characters the coming children can put before the shell. *)
Fixpoint forks_budget (l : list fork_ret) : nat :=
  match l with
  | [] => O
  | r :: l' => (String.length (child_input r EmptyString) + forks_budget l')%nat
  end.

Record world : Type := World {
  w_stdin : string;               (* what stdin holds for the shell to read,
                                     until a child changes it *)
  w_env : gmap string string;     (* the environment *)
  w_cwd : string;                 (* the current working directory *)
  w_forks : list fork_ret;        (* what the coming calls of fork return *)
  w_trace : list event            (* the events so far, oldest first *)
}.

Definition log (e : event) (w : world) : world :=
  World (w_stdin w) (w_env w) (w_cwd w) (w_forks w) (w_trace w ++ [e]).

Definition set_cwd (d : string) (w : world) : world :=
  World (w_stdin w) (w_env w) d (w_forks w) (w_trace w).

Definition set_stdin (s : string) (w : world) : world :=
  World s (w_env w) (w_cwd w) (w_forks w) (w_trace w).

Definition set_forks (l : list fork_ret) (w : world) : world :=
  World (w_stdin w) (w_env w) (w_cwd w) l (w_trace w).

(** The part of the operating system the shell calls into: [os_chdir cwd
    path] is the new working directory when [chdir(path)] succeeds from
    [cwd] and [None] when it returns non-zero ([path = None] is a NULL
    pointer); [os_execvp file argv] tells whether the program can be
    started. *)
Record os : Type := OS {
  os_chdir : string -> option string -> option string;
  os_execvp : string -> list string -> bool
}.

Definition getenv (name : string) (w : world) : option string :=
  w_env w !! name.

(** [fork()] seen from the shell; a machine that grants no more processes
    makes it fail. The shell reads nothing between this call and its next
    [getline], so what the child does to the shared input is taken to be
    done when the call returns. *)
Definition fork (w : world) : Z * world :=
  match w_forks w with
  | [] => (-1, log EvFork w)
  | r :: rs =>
      (pid_of r,
       set_stdin (child_input r (w_stdin w)) (set_forks rs (log EvFork w)))
  end.

(** An upper bound on the characters the shell can still be given. *)
Definition input_budget (w : world) : nat :=
  (String.length (w_stdin w) + forks_budget (w_forks w))%nat.

(** [getline(&cmd, &len, stdin)]: the characters up to and including the
    next newline, or up to the end of the input. *)
Fixpoint read_line (s : string) : string * string :=
  match s with
  | String c s' =>
      if Ascii.eqb c CStr.LF then (String c EmptyString, s')
      else let (l, r) := read_line s' in (String c l, r)
  | EmptyString => (EmptyString, EmptyString)
  end.

Definition getline (w : world) : option string * world :=
  match w_stdin w with
  | EmptyString => (None, w)
  | s => let (l, r) := read_line s in (Some l, set_stdin r w)
  end.

(** [if (cmd[read-1] == '\n') cmd[read-1] = '\0';] *)
Fixpoint chomp (buf : string) : string :=
  match buf with
  | String c EmptyString => if Ascii.eqb c CStr.LF then EmptyString else buf
  | String c buf' => String c (chomp buf')
  | EmptyString => EmptyString
  end.

(** ** The shell *)

(** [strcmp(p, lit) == 0] *)
Definition strcmp_eq (p : ptr) (lit : string) : result bool :=
  match p with
  | Str s => Ret (String.eqb s lit)
  | NULL => Fault NullDeref
  | Undef => Fault UninitRead
  end.

(** [strcmp(p, a) == 0 || strcmp(p, b) == 0] *)
Definition strcmp_either (p : ptr) (a b : string) : result bool :=
  let* x := strcmp_eq p a in
  if x : bool then Ret true else strcmp_eq p b.

Definition NOT_BUILTIN : Z := 0.
Definition HANDLED : Z := 1.
Definition HANDLED_ERROR : Z := -1.

Section Shell.

Variable sys : os.

(** [handle_builtin args running w] gives the value returned, the value
    [*running] holds afterwards, and the world afterwards. *)
Definition handle_builtin (args : list ptr) (running : Z) (w : world)
  : result (Z * Z * world) :=
  let* a0 := load args 0 in
  let* leave := strcmp_either a0 "exit" "quit" in
  if leave : bool then Ret (HANDLED, 0, w)
  else
    let* cd := strcmp_either a0 "cd" "chdir" in
    if cd : bool then
      let* a1 := load args 1 in
      let path := match a1 with
                  | Str s => Some s              (* path = args[1] *)
                  | _ => getenv "HOME" w         (* args[1] == NULL; [load]
                                                    yields no other cell *)
                  end in
      let w := log (EvChdir path) w in
      match os_chdir sys (w_cwd w) path with
      | Some d => Ret (HANDLED, running, set_cwd d w)
      | None => Ret (HANDLED_ERROR, running, log (EvPerror "cd") w)
      end
    else Ret (NOT_BUILTIN, running, w).

(** What [execute] does once [fork] has returned [pid]: in the parent
    ([pid > 0]) it waits, or announces the background process, and returns;
    after a failed [fork] it complains and returns; in the child
    ([pid == 0]) it never returns, the process becomes the program or ends
    with status 1. What that child leaves behind for the shell, the input
    it shares, is in the answer of [fork]. *)
Definition after_fork (pid : Z) (args : list ptr) (background : Z)
    (w : world) : result world :=
  if pid <? 0 then Ret (log (EvPerror "fork") w)
  else if pid =? 0 then
    let* a0 := load args 0 in
    match a0, argv_of args with
    | Str file, Some argv =>
        if os_execvp sys file argv then Halt (Replaced file argv)
        else Halt (Exited 1)
    | Str _, None => Fault UninitRead
    | _, _ => Fault NullDeref
    end
  else if background =? 0 then Ret (log (EvWaitpid pid) w)
  else Ret (log (EvStarted pid) w).

(** [execute args background w], in the shell: the world when the call
    returns. *)
Definition execute (args : list ptr) (background : Z) (w : world)
  : result world :=
  let (pid, w) := fork w in
  after_fork pid args background w.

(** One pass through the body of the [while] loop of [main], after a line
    has been read into [buf]: [inl] is the value of [running] the loop goes
    on with, [inr] the status [main] returns. *)
Definition loop_body (buf : string) (running : Z) (w : world)
  : result ((Z + Z) * world) :=
  match buf with
  | String c _ =>
      if Ascii.eqb c CStr.LF then Ret (inl running, w)      (* continue *)
      else
        let cmd := CStr.c_str (chomp buf) in
        let* (args, background) := parse cmd in
        let* (r, running, w) := handle_builtin args running w in
        if negb (r =? 0) then
          if running =? 0 then Ret (inr 0, w)                (* break *)
          else Ret (inl running, w)
        else
          let* w := execute args background w in
          Ret (inl running, w)
  | EmptyString => Fault OutOfBounds
  end.

(** The [while (running)] loop; leaving it reaches the end of [main], which
    returns 0. *)
Fixpoint main_loop (fuel : nat) (running : Z) (w : world)
  : result (Z * world) :=
  if running =? 0 then Ret (0, w)
  else
    match fuel with
    | O => Diverge
    | S fuel' =>
        let w := log EvPrompt w in
        match getline w with
        | (None, w) => Ret (1, log (EvPerror "getLine") w)
        | (Some buf, w) =>
            let* (next, w) := loop_body buf running w in
            match next with
            | inl running => main_loop fuel' running w
            | inr status => Ret (status, w)
            end
        end
    end.

(** [main]: every pass of the loop reads at least one character of what
    the shell can still be given, and one more pass meets the end of the
    input. *)
Definition main (w : world) : result (Z * world) :=
  main_loop (S (input_budget w)) 1 w.

End Shell.

(** ** The vocabulary of the specification and of the proofs *)

Module Spec.

(** Splitting a line on runs of the space character: [cur] holds the
    characters of the token being read. *)
Fixpoint split_from (cur : string) (s : string) : list string :=
  match s with
  | String c s' =>
      if Ascii.eqb c CStr.SP then
        match cur with
        | EmptyString => split_from EmptyString s'
        | _ => cur :: split_from EmptyString s'
        end
      else split_from (cur ++ String c EmptyString) s'
  | EmptyString =>
      match cur with
      | EmptyString => []
      | _ => [cur]
      end
  end.

Definition tokens (line : string) : list string := split_from EmptyString line.

Definition MARKER : string := "#".

Definition is_marker (t : string) : bool := String.eqb t MARKER.

(** The tokens in front of the first background marker (all of them when
    there is none), and whether there is one. *)
Fixpoint before_marker (toks : list string) : list string :=
  match toks with
  | t :: toks' => if is_marker t then [] else t :: before_marker toks'
  | [] => []
  end.

Definition has_marker (toks : list string) : bool := existsb is_marker toks.

(** Joining tokens with single spaces. *)
Fixpoint join (toks : list string) : string :=
  match toks with
  | [] => EmptyString
  | [t] => t
  | t :: toks' => t ++ String CStr.SP (join toks')
  end.

Definition no_leading_space (s : string) : bool :=
  match s with
  | String c _ => negb (Ascii.eqb c CStr.SP)
  | EmptyString => true
  end.

Fixpoint no_trailing_space (s : string) : bool :=
  match s with
  | String c EmptyString => negb (Ascii.eqb c CStr.SP)
  | String _ s' => no_trailing_space s'
  | EmptyString => true
  end.

Fixpoint no_repeated_space (s : string) : bool :=
  match s with
  | String a s' =>
      match s' with
      | String b _ =>
          negb (Ascii.eqb a CStr.SP && Ascii.eqb b CStr.SP) && no_repeated_space s'
      | EmptyString => true
      end
  | EmptyString => true
  end.

Definition single_spaced (s : string) : bool :=
  no_leading_space s && no_trailing_space s && no_repeated_space s.

(** The argument vector [parse] builds for the kept tokens: the strings, the
    terminating NULL, and the cells never written. *)
Definition arg_vector (kept : list string) : list ptr :=
  (Str <$> kept) ++ NULL :: replicate (MAX_ARGS - S (length kept)) Undef.

Definition flag (b : bool) : Z := if b then 1 else 0.

(** Whether a string holds a space. *)
Fixpoint has_space (s : string) : bool :=
  match s with
  | String c s' => Ascii.eqb c CStr.SP || has_space s'
  | EmptyString => false
  end.

(** A token is put in front of the list unless it is empty. *)
Definition emit (t : string) (l : list string) : list string :=
  match t with
  | EmptyString => l
  | _ => t :: l
  end.

Definition rest_of (r : string) : string :=
  match r with
  | EmptyString => EmptyString
  | String _ r' => r'
  end.

(** The tokens [strtok] has still to deliver in the loop of [parse]. *)
Definition pending (token : option string) (saved : string) : list string :=
  match token with
  | None => []
  | Some t => t :: tokens saved
  end.

(** The path [cd] hands to [chdir]. *)
Definition cd_target (rest : list string) (w : world) : option string :=
  match rest with
  | p :: _ => Some p
  | [] => getenv "HOME" w
  end.

Definition is_fork (e : event) : bool :=
  match e with
  | EvFork => true
  | _ => false
  end.

(** How many times the trace shows a call of [fork]. *)
Definition spawn_count (t : list event) : nat :=
  length (List.filter is_fork t).

End Spec.

(** A small machine to run examples on: only [/tmp] and [/home/u] exist, and
    every program can be started. *)
Definition demo_os : os :=
  OS (fun _ path =>
        match path with
        | Some p => if String.eqb p "/tmp" || String.eqb p "/home/u"
                    then Some p else None
        | None => None
        end)
     (fun _ _ => true).

Definition nl : string := String CStr.LF EmptyString.

Definition demo_world (input : string) : world :=
  World input {[ "HOME" := "/home/u" ]} "/" [ForkChild 7; ForkFailed] [].

(** A line of [n] one-letter tokens followed by [tail]. *)
Fixpoint many_tokens (n : nat) (tail : string) : string :=
  match n with
  | O => tail
  | S n' => String "a" (String CStr.SP (many_tokens n' tail))
  end.

Definition bare_world (input : string) : world :=
  World input ∅ "/" [ForkChild 7; ForkFailed] [].

Definition line_129 : string := many_tokens 128 "# b".
Definition line_128 : string := many_tokens 127 "a".
Definition line_200 : string := many_tokens 199 "z".

(** The world [main] ends in on the input [cd /tmp], newline, [ls]. *)
Definition eof_world : world :=
  World EmptyString {[ "HOME" := "/home/u" ]} "/tmp" [ForkFailed]
    [EvPrompt; EvChdir (Some "/tmp"); EvPrompt; EvFork; EvWaitpid 7;
     EvPrompt; EvPerror "getLine"].

(** ** Notions used in the further properties *)

(** The names the dispatcher knows. *)
Definition builtin_name (c : string) : Prop :=
  c = "exit" \/ c = "quit" \/ c = "cd" \/ c = "chdir".

(** The event that follows [fork] in the shell. *)
Definition fork_outcome (background : Z) (w : world) : event :=
  match w_forks w with
  | [] | ForkFailed :: _ => EvPerror "fork"
  | r :: _ =>
      if background =? 0 then EvWaitpid (pid_of r) else EvStarted (pid_of r)
  end.

(** The input to come once the next [fork] has been answered. *)
Definition input_after_fork (w : world) : string :=
  match w_forks w with
  | r :: _ => child_input r (w_stdin w)
  | [] => w_stdin w
  end.

(** Whether a string holds the character [c]. *)
Fixpoint mentions (c : ascii) (s : string) : bool :=
  match s with
  | String x s' => Ascii.eqb x c || mentions c s'
  | EmptyString => false
  end.

(** The value the dispatcher owes a command whose first token is [c] and
    whose other tokens are [rest]: handled for [exit] and [quit], handled or
    handled with an error for [cd] and [chdir], as [chdir] fares, and not a
    builtin for every other word. *)
Definition dispatch_code (sys : os) (c : string) (rest : list string)
    (w : world) : Z :=
  if String.eqb c "exit" || String.eqb c "quit" then HANDLED
  else if String.eqb c "cd" || String.eqb c "chdir" then
    match os_chdir sys (w_cwd w) (Spec.cd_target rest w) with
    | Some _ => HANDLED
    | None => HANDLED_ERROR
    end
  else NOT_BUILTIN.




(** * Proofs *)

(** ** The model at work *)

Example parse_foreground :
  parse "gcc  -o my-shell my-shell.c" =
  Ret (Spec.arg_vector ["gcc"; "-o"; "my-shell"; "my-shell.c"], 0).
Proof. reflexivity. Qed.

Example parse_background :
  parse " sleep 10 # and the rest" = Ret (Spec.arg_vector ["sleep"; "10"], 1).
Proof. reflexivity. Qed.

(** Only the space separates tokens, and the marker is a token of its own. *)
Example parse_tab_and_hash :
  parse (String "a" (String "009" "b c#d #e")) =
  Ret (Spec.arg_vector [String "a" (String "009" "b"); "c#d"; "#e"], 0).
Proof. reflexivity. Qed.

Example session :
  main demo_os
    (demo_world ("cd" ++ nl ++ "make #" ++ nl ++ nl ++ "chdir /nope" ++ nl
                 ++ "quit" ++ nl ++ "ls" ++ nl)) =
  Ret (0, World ("ls" ++ nl) {[ "HOME" := "/home/u" ]} "/home/u" [ForkFailed]
            [EvPrompt; EvChdir (Some "/home/u");
             EvPrompt; EvFork; EvStarted 7;
             EvPrompt;
             EvPrompt; EvChdir (Some "/nope"); EvPerror "cd";
             EvPrompt]).
Proof. vm_compute. reflexivity. Qed.

(** A child whose [execvp] failed has moved the shared file position back:
    the line behind the failed command is read, and obeyed, twice. *)
Example line_read_twice :
  main demo_os
    (World ("nosuchcmd" ++ nl ++ "cd /tmp" ++ nl) ∅ "/"
       [ForkChildInput 9 ("cd /tmp" ++ nl ++ "cd /tmp" ++ nl)] []) =
  Ret (1, World EmptyString ∅ "/tmp" []
            [EvPrompt; EvFork; EvWaitpid 9;
             EvPrompt; EvChdir (Some "/tmp");
             EvPrompt; EvChdir (Some "/tmp");
             EvPrompt; EvPerror "getLine"]).
Proof. vm_compute. reflexivity. Qed.

(** ** Strings *)

Lemma append_cons (c : ascii) (s t : string) :
  String c s ++ t = String c (s ++ t).
Proof. reflexivity. Qed.

Lemma append_nil_l (t : string) : EmptyString ++ t = t.
Proof. reflexivity. Qed.

Lemma append_nil_r (s : string) : s ++ EmptyString = s.
Proof.
  induction s as [|c s IH]; [reflexivity|]. now rewrite append_cons, IH.
Qed.

Lemma append_assoc (a b c : string) : (a ++ b) ++ c = a ++ (b ++ c).
Proof.
  induction a as [|x a IH]; [reflexivity|]. now rewrite !append_cons, IH.
Qed.

Lemma append_snoc (cur : string) (c : ascii) (t : string) :
  (cur ++ String c EmptyString) ++ t = cur ++ String c t.
Proof. now rewrite append_assoc. Qed.


(** ** [strtok] walks through the tokens of the line *)

Module TokenFacts.
Import CStr Spec.

Lemma split_from_span (s : string) : forall cur,
  split_from cur s =
  emit (cur ++ fst (span_token s)) (tokens (rest_of (snd (span_token s)))).
Proof.
  induction s as [|c s IH]; intros cur; simpl.
  - rewrite append_nil_r. destruct cur; reflexivity.
  - destruct (Ascii.eqb c SP) eqn:E; simpl.
    + rewrite append_nil_r. destruct cur; reflexivity.
    + rewrite IH. destruct (span_token s) as [t r]; simpl.
      now rewrite append_snoc.
Qed.

Lemma tokens_skip_delims (s : string) : tokens (skip_delims s) = tokens s.
Proof.
  induction s as [|c s IH]; simpl; [reflexivity|].
  destruct (Ascii.eqb c SP) eqn:E; [|reflexivity].
  rewrite IH. unfold tokens; simpl. now rewrite E.
Qed.

Lemma skip_delims_head (s : string) c r :
  skip_delims s = String c r -> Ascii.eqb c SP = false.
Proof.
  induction s as [|x s IH]; simpl; [discriminate|].
  destruct (Ascii.eqb x SP) eqn:E; [exact IH|].
  intros [= <- _]. exact E.
Qed.

Lemma skip_delims_length (s : string) :
  (String.length (skip_delims s) <= String.length s)%nat.
Proof.
  induction s as [|x s IH]; simpl; [lia|].
  destruct (Ascii.eqb x SP); simpl; lia.
Qed.

Lemma span_token_length (s : string) :
  (String.length (fst (span_token s)) + String.length (snd (span_token s))
   = String.length s)%nat.
Proof.
  induction s as [|x s IH]; simpl; [reflexivity|].
  destruct (Ascii.eqb x SP); simpl; [reflexivity|].
  destruct (span_token s); simpl in *; lia.
Qed.

Lemma rest_of_length (r : string) :
  (String.length (rest_of r) <= String.length r)%nat.
Proof. destruct r; simpl; lia. Qed.

(** No more token: the line has none left. *)
Lemma strtok_None (s saved : string) :
  strtok s = (None, saved) -> tokens s = [].
Proof.
  unfold strtok. rewrite <- (tokens_skip_delims s).
  destruct (skip_delims s) as [|c r]; [reflexivity|].
  destruct (span_token (String c r)); discriminate.
Qed.

(** A token: it is the first one of the line, the saved position holds the
    others, and it is shorter than what was scanned. *)
Lemma strtok_Some (s tok saved : string) :
  strtok s = (Some tok, saved) ->
  tokens s = tok :: tokens saved /\
  tok <> EmptyString /\
  (String.length saved < String.length s)%nat.
Proof.
  unfold strtok. rewrite <- (tokens_skip_delims s).
  pose proof (skip_delims_length s) as Hlen.
  destruct (skip_delims s) as [|c r] eqn:Hs; [discriminate|].
  pose proof (skip_delims_head _ _ _ Hs) as Hc.
  unfold tokens at 1. rewrite split_from_span.
  pose proof (span_token_length (String c r)) as Hsp.
  destruct (span_token (String c r)) as [t rest] eqn:Ht.
  intros [= <- <-]. simpl in Ht. rewrite Hc in Ht.
  destruct (span_token r) as [t' r'] eqn:Hr. injection Ht as <- <-.
  simpl fst in *; simpl snd in *. simpl in Hsp. simpl in Hlen.
  pose proof (rest_of_length r'). unfold rest_of in *.
  split; [reflexivity|]. split; [discriminate|].
  destruct r'; simpl in *; lia.
Qed.

End TokenFacts.

(** ** What [parse] computes *)

Module ParseFacts.
Import CStr Spec TokenFacts.

Lemma pending_strtok (s : string) :
  pending (fst (strtok s)) (snd (strtok s)) = tokens s.
Proof.
  destruct (strtok s) as [[t|] saved] eqn:E; simpl.
  - symmetry. now apply strtok_Some in E.
  - symmetry. now apply strtok_None in E.
Qed.

Lemma store_app (done free : list ptr) (v : ptr) :
  store (done ++ free) (length done) v =
  match free with
  | [] => Fault OutOfBounds
  | _ :: free' => Ret ((done ++ [v]) ++ free')%list
  end.
Proof.
  unfold store. rewrite length_app.
  destruct free as [|x free']; simpl.
  - destruct (decide _) as [H|H]; [lia | reflexivity].
  - destruct (decide _) as [H|H]; [|lia].
    replace (length done) with (length done + 0)%nat at 1 by lia.
    rewrite insert_app_r. simpl. now rewrite <- app_assoc.
Qed.

(** The loop writes the kept tokens into the free cells behind those
    already written, and faults when it runs out of cells. *)
Lemma parse_loop_spec (fuel : nat) : forall token saved done free background,
  (forall t, token = Some t -> (String.length saved < fuel)%nat) ->
  parse_loop fuel token saved (done ++ free) (length done) background =
  let toks := pending token saved in
  let kept := before_marker toks in
  if decide (length kept <= length free)%nat
  then Ret ((done ++ (Str <$> kept) ++ drop (length kept) free)%list,
            (length done + length kept)%nat,
            if has_marker toks then 1 else background)
  else Fault OutOfBounds.
Proof.
  induction fuel as [|fuel IH]; intros token saved done free bg Hfuel.
  - destruct token as [tok|]; simpl.
    + unfold is_marker, MARKER.
      destruct (String.eqb tok "#") eqn:E; simpl.
      * now rewrite Nat.add_0_r.
      * specialize (Hfuel tok eq_refl). lia.
    + now rewrite Nat.add_0_r.
  - destruct token as [tok|]; simpl; [|now rewrite Nat.add_0_r].
    unfold is_marker, MARKER.
    destruct (String.eqb tok "#") eqn:E; simpl; [now rewrite Nat.add_0_r|].
    rewrite store_app. destruct free as [|x free]; simpl.
    + reflexivity.
    + specialize (Hfuel tok eq_refl).
      destruct (strtok saved) as [token' saved'] eqn:Htok.
      replace (S (length done)) with (length (done ++ [Str tok]))
        by (rewrite length_app; simpl; lia).
      rewrite IH.
      2:{ intros t ->. apply strtok_Some in Htok. lia. }
      pose proof (pending_strtok saved) as Hp. rewrite Htok in Hp.
      simpl in Hp. rewrite Hp.
      cbv zeta. do 2 case_decide; try lia; [|reflexivity].
      rewrite <- app_assoc, length_app. simpl.
      do 3 f_equal; try reflexivity; lia.
Qed.

Lemma length_malloc_ptrs (n : nat) : length (malloc_ptrs n) = n.
Proof. apply length_replicate. Qed.

Lemma insert_arg_vector (kept : list string) :
  (length kept < MAX_ARGS)%nat ->
  <[length kept:=NULL]>
    ((Str <$> kept) ++ drop (length kept) (malloc_ptrs MAX_ARGS))%list =
  arg_vector kept.
Proof.
  intros H. unfold arg_vector, malloc_ptrs. rewrite drop_replicate.
  generalize dependent MAX_ARGS. intros N H.
  rewrite insert_app_r_alt by (rewrite length_fmap; lia).
  rewrite length_fmap, Nat.sub_diag. f_equal.
  destruct (N - length kept)%nat as [|m] eqn:E; [lia|].
  simpl. do 2 f_equal. lia.
Qed.

(** [parse] returns the kept tokens followed by NULL when there are at most
    [MAX_ARGS - 1] of them, and writes outside the array otherwise. *)
Lemma parse_spec (line : string) :
  parse line =
  let kept := before_marker (tokens line) in
  if decide (length kept < MAX_ARGS)%nat
  then Ret (arg_vector kept, flag (has_marker (tokens line)))
  else Fault OutOfBounds.
Proof.
  unfold parse.
  pose proof (pending_strtok line) as Hp.
  destruct (strtok line) as [token saved] eqn:Htok. simpl in Hp.
  pose proof (parse_loop_spec (String.length line) token saved []
                (malloc_ptrs MAX_ARGS) 0) as Hl.
  simpl in Hl. rewrite Hl; clear Hl.
  2:{ intros t ->. apply strtok_Some in Htok. lia. }
  rewrite Hp. change 128%nat with MAX_ARGS.
  set (kept := before_marker (tokens line)).
  destruct (decide (length kept <= MAX_ARGS)%nat) as [H|H]; simpl.
  - unfold store. rewrite length_app, length_fmap, length_drop.
    rewrite length_malloc_ptrs.
    destruct (decide (length kept < MAX_ARGS)%nat) as [H'|H'].
    + destruct (decide _) as [H2|H2]; [|lia]. simpl.
      rewrite insert_arg_vector by exact H'.
      now destruct (has_marker (tokens line)).
    + destruct (decide _) as [H2|H2]; [lia | reflexivity].
  - destruct (decide (length kept < MAX_ARGS)%nat) as [H'|H']; [lia|].
    reflexivity.
Qed.

End ParseFacts.

(** ** The argument vector read back as a sequence *)

Module VectorFacts.
Import Spec.

Lemma argv_of_app_NULL (kept : list string) (tail : list ptr) :
  argv_of ((Str <$> kept) ++ NULL :: tail)%list = Some kept.
Proof.
  induction kept as [|t kept IH]; [reflexivity|].
  rewrite fmap_cons. change (argv_of ((Str t :: (Str <$> kept)) ++ NULL :: tail)%list)
    with (cons t <$> argv_of ((Str <$> kept) ++ NULL :: tail)%list).
  now rewrite IH.
Qed.

Lemma argv_of_arg_vector (kept : list string) :
  argv_of (arg_vector kept) = Some kept.
Proof. apply argv_of_app_NULL. Qed.

Lemma arg_vector_NULL (kept : list string) :
  arg_vector kept !! length kept = Some NULL.
Proof.
  unfold arg_vector. rewrite lookup_app_r by (rewrite length_fmap; lia).
  now rewrite length_fmap, Nat.sub_diag.
Qed.

Lemma arg_vector_Str (kept : list string) (i : nat) (t : string) :
  kept !! i = Some t -> arg_vector kept !! i = Some (Str t).
Proof.
  intros H. unfold arg_vector. apply lookup_app_l_Some.
  now rewrite list_lookup_fmap, H.
Qed.

Lemma arg_vector_length (kept : list string) :
  length (arg_vector kept) = Nat.max MAX_ARGS (S (length kept)).
Proof.
  unfold arg_vector. rewrite length_app, length_fmap. simpl.
  rewrite length_replicate. lia.
Qed.

(** Where the first marker sits decides what is kept. *)
Lemma before_marker_take (toks : list string) : forall i,
  toks !! i = Some MARKER ->
  MARKER ∉ take i toks ->
  before_marker toks = take i toks /\ has_marker toks = true.
Proof.
  induction toks as [|t toks IH]; intros i Hi Hno; [discriminate|].
  destruct i as [|i]; simpl in *.
  - injection Hi as ->. now split.
  - apply not_elem_of_cons in Hno as [Hne Hno].
    unfold is_marker. destruct (String.eqb_spec t MARKER) as [->|_].
    + now contradiction Hne.
    + destruct (IH i Hi Hno) as [-> ->]. split; [reflexivity|].
      apply orb_true_r.
Qed.

Lemma before_marker_none (toks : list string) :
  MARKER ∉ toks -> before_marker toks = toks /\ has_marker toks = false.
Proof.
  induction toks as [|t toks IH]; intros Hno; [now split|].
  apply not_elem_of_cons in Hno as [Hne Hno]. simpl.
  unfold is_marker. destruct (String.eqb_spec t MARKER) as [->|_].
  - now contradiction Hne.
  - destruct (IH Hno) as [-> ->]. now split.
Qed.

Lemma before_marker_length (toks : list string) :
  (length (before_marker toks) <= length toks)%nat.
Proof.
  induction toks as [|t toks IH]; simpl; [lia|].
  destruct (is_marker t); simpl; lia.
Qed.

(** Tokens are not empty and hold no space. *)
Lemma has_space_snoc (cur : string) (c : ascii) :
  has_space cur = false -> Ascii.eqb c CStr.SP = false ->
  has_space (cur ++ String c EmptyString) = false.
Proof.
  induction cur as [|x cur IH]; intros Hcur Hc.
  - simpl. now rewrite Hc.
  - rewrite append_cons. simpl in *. apply orb_false_iff in Hcur as [-> Hcur].
    now apply IH.
Qed.

Lemma split_from_wellformed (s : string) : forall cur,
  has_space cur = false ->
  Forall (fun t => t <> EmptyString /\ has_space t = false) (split_from cur s).
Proof.
  induction s as [|c s IH]; intros cur Hcur; simpl.
  - destruct cur; constructor; [split; [discriminate | exact Hcur] | constructor].
  - destruct (Ascii.eqb c CStr.SP) eqn:Hc.
    + destruct cur; [now apply IH|].
      constructor; [split; [discriminate | exact Hcur] | now apply IH].
    + apply IH. now apply has_space_snoc.
Qed.

Lemma tokens_wellformed (line : string) :
  Forall (fun t => t <> EmptyString /\ has_space t = false) (tokens line).
Proof. now apply split_from_wellformed. Qed.

(** What [split_from] yields, glued back with single spaces, is the text it
    was given, provided the text is single-spaced. *)
Lemma join_cons (t : string) (l : list string) :
  l <> [] -> join (t :: l) = t ++ String CStr.SP (join l).
Proof. destruct l; [congruence | reflexivity]. Qed.

Lemma no_repeated_space_cons (a b : ascii) (s : string) :
  no_repeated_space (String a (String b s)) =
  negb (Ascii.eqb a CStr.SP && Ascii.eqb b CStr.SP)
  && no_repeated_space (String b s).
Proof. reflexivity. Qed.

Lemma no_trailing_space_cons (a b : ascii) (s : string) :
  no_trailing_space (String a (String b s)) = no_trailing_space (String b s).
Proof. reflexivity. Qed.

Lemma join_split_from (s : string) : forall cur,
  (cur <> EmptyString \/ no_leading_space s = true) ->
  no_trailing_space s = true ->
  no_repeated_space s = true ->
  join (split_from cur s) = cur ++ s.
Proof.
  induction s as [|c s IH]; intros cur Hlead Htrail Hrep.
  - rewrite append_nil_r. destruct cur; reflexivity.
  - simpl split_from. destruct (Ascii.eqb_spec c CStr.SP) as [->|Hc].
    + (* a separator: the token in [cur] ends here *)
      destruct Hlead as [Hcur|Hlead]; [|discriminate].
      destruct s as [|d s]; [discriminate|].
      rewrite no_repeated_space_cons in Hrep.
      rewrite no_trailing_space_cons in Htrail.
      apply andb_true_iff in Hrep as [Hd Hrep].
      rewrite Ascii.eqb_refl in Hd. simpl in Hd.
      assert (Hs : join (split_from EmptyString (String d s)) = String d s).
      { apply (IH EmptyString); [right; exact Hd | exact Htrail | exact Hrep]. }
      assert (Hne : split_from EmptyString (String d s) <> []).
      { intros E. rewrite E in Hs. discriminate. }
      destruct cur as [|x cur]; [congruence|].
      rewrite join_cons by exact Hne. now rewrite Hs.
    + rewrite IH.
      * apply append_snoc.
      * left. intros E. destruct cur; discriminate.
      * destruct s; [reflexivity | exact Htrail].
      * destruct s as [|d s]; [reflexivity|].
        rewrite no_repeated_space_cons in Hrep.
        apply andb_true_iff in Hrep. tauto.
Qed.

Lemma join_tokens (line : string) :
  single_spaced line = true -> join (tokens line) = line.
Proof.
  unfold single_spaced. intros H.
  apply andb_true_iff in H as [H Hrep]. apply andb_true_iff in H as [Hl Ht].
  unfold tokens. rewrite join_split_from; auto.
Qed.

End VectorFacts.

(** ** The builtin dispatcher *)

Section DispatcherFacts.

Variable sys : os.

Import Spec.

Lemma argv_of_cons_inv (args : list ptr) (c : string) (rest : list string) :
  argv_of args = Some (c :: rest) ->
  exists args', args = Str c :: args' /\ argv_of args' = Some rest.
Proof.
  destruct args as [|[| |s] args']; simpl; try discriminate.
  destruct (argv_of args') as [l|] eqn:E; simpl; [|discriminate].
  intros [= -> ->]. now exists args'.
Qed.

Lemma argv_of_nil_inv (args : list ptr) :
  argv_of args = Some [] -> exists args', args = NULL :: args'.
Proof.
  destruct args as [|[| |s] args']; simpl; try discriminate.
  - intros _. now exists args'.
  - destruct (argv_of args'); discriminate.
Qed.

Lemma load_Str (args : list ptr) (i : nat) (s : string) :
  args !! i = Some (Str s) -> load args i = Ret (Str s).
Proof. unfold load. now intros ->. Qed.

(** [exit] and [quit] are decided on the first cell alone. *)
Lemma handle_builtin_leave (args : list ptr) (running : Z) (w : world) c :
  args !! 0%nat = Some (Str c) ->
  c = "exit" \/ c = "quit" ->
  handle_builtin sys args running w = Ret (HANDLED, 0, w).
Proof.
  intros H0 Hc. unfold handle_builtin. rewrite (load_Str _ _ _ H0).
  destruct Hc as [-> | ->]; reflexivity.
Qed.

Lemma handle_builtin_cd (args : list ptr) (running : Z) (w : world) c rest :
  argv_of args = Some (c :: rest) ->
  c = "cd" \/ c = "chdir" ->
  handle_builtin sys args running w =
  let path := cd_target rest w in
  match os_chdir sys (w_cwd w) path with
  | Some d => Ret (HANDLED, running, set_cwd d (log (EvChdir path) w))
  | None =>
      Ret (HANDLED_ERROR, running, log (EvPerror "cd") (log (EvChdir path) w))
  end.
Proof.
  intros Hargs Hc. apply argv_of_cons_inv in Hargs as (args' & -> & Hrest).
  unfold handle_builtin.
  assert (Ha1 : exists a1, load (Str c :: args') 1 = Ret a1 /\
            match a1 with Str s => Some s | _ => getenv "HOME" w end
            = cd_target rest w).
  { destruct rest as [|p rest].
    - apply argv_of_nil_inv in Hrest as (a & ->). now exists NULL.
    - apply argv_of_cons_inv in Hrest as (a & -> & _). now exists (Str p). }
  destruct Ha1 as (a1 & Hload & Hpath).
  destruct Hc as [-> | ->]; simpl load at 1; simpl bind at 1;
    cbv beta iota; simpl strcmp_either; simpl bind at 1; cbv beta iota;
    rewrite Hload; simpl bind; rewrite Hpath; reflexivity.
Qed.

(** Every way [handle_builtin] can return. *)
Lemma handle_builtin_inv (args : list ptr) (running : Z) (w : world) r run' w' :
  handle_builtin sys args running w = Ret (r, run', w') ->
  exists c, args !! 0%nat = Some (Str c) /\
  ( ((c = "exit" \/ c = "quit") /\ r = HANDLED /\ run' = 0 /\ w' = w)
    \/ ((c = "cd" \/ c = "chdir") /\ run' = running /\
        exists path,
          (exists d, os_chdir sys (w_cwd w) path = Some d /\ r = HANDLED /\
                     w' = set_cwd d (log (EvChdir path) w))
          \/ (os_chdir sys (w_cwd w) path = None /\ r = HANDLED_ERROR /\
              w' = log (EvPerror "cd") (log (EvChdir path) w)))
    \/ (c <> "exit" /\ c <> "quit" /\ c <> "cd" /\ c <> "chdir" /\
        r = NOT_BUILTIN /\ run' = running /\ w' = w) ).
Proof.
  unfold handle_builtin, load.
  destruct (args !! 0%nat) as [[| |c]|] eqn:H0; simpl; try discriminate.
  intros H. exists c. split; [reflexivity|].
  unfold strcmp_either, strcmp_eq in H. simpl in H.
  destruct (String.eqb_spec c "exit") as [->|Hexit].
  { injection H as <- <- <-. left. tauto. }
  simpl in H. destruct (String.eqb_spec c "quit") as [->|Hquit].
  { injection H as <- <- <-. left. tauto. }
  simpl in H. destruct (String.eqb_spec c "cd") as [->|Hcd]; simpl in H.
  - right; left. split; [tauto|].
    destruct (args !! 1%nat) as [[| |p]|]; simpl in H; try discriminate;
      match type of H with
      | context [os_chdir sys ?cwd ?path] =>
          destruct (os_chdir sys cwd path) as [d|] eqn:Hch;
          injection H as <- <- <-; (split; [reflexivity|]); exists path;
          [left; exists d; tauto | right; tauto]
      end.
  - destruct (String.eqb_spec c "chdir") as [->|Hchdir]; simpl in H.
    + right; left. split; [tauto|].
      destruct (args !! 1%nat) as [[| |p]|]; simpl in H; try discriminate;
        match type of H with
        | context [os_chdir sys ?cwd ?path] =>
            destruct (os_chdir sys cwd path) as [d|] eqn:Hch;
            injection H as <- <- <-; (split; [reflexivity|]); exists path;
            [left; exists d; tauto | right; tauto]
        end.
    + injection H as <- <- <-. right; right. tauto.
Qed.

End DispatcherFacts.

(** ** The executor and the read loop *)

Section LoopFacts.

Variable sys : os.

Import CStr Spec.

(** In the shell [fork] never returns 0, so [execute] comes back. *)
Lemma execute_shell (args : list ptr) (background : Z) (w : world) :
  exists w' e,
    execute sys args background w = Ret w' /\
    (input_budget w' <= input_budget w)%nat /\
    w_trace w' = (w_trace w ++ [EvFork; e])%list /\
    is_fork e = false.
Proof.
  unfold execute, fork, after_fork, input_budget.
  destruct w as [i env c fs t]. simpl.
  destruct fs as [|[|p|p input] rs]; simpl;
    try destruct (background =? 0);
    eexists _, _; (split; [reflexivity|]); simpl; (split; [lia|]);
    rewrite <- app_assoc; (split; reflexivity).
Qed.

(** The child does not come back into the loop. *)
Lemma child_never_returns (args : list ptr) (background : Z) (w w' : world) :
  after_fork sys 0 args background w <> Ret w'.
Proof.
  unfold after_fork, load. simpl.
  destruct (args !! 0%nat) as [[| |file]|]; simpl; try discriminate.
  destruct (argv_of args); [|discriminate].
  destruct (os_execvp sys file l); discriminate.
Qed.

(** When the program cannot be started the child ends with status 1. *)
Lemma child_exec_failure (args : list ptr) (background : Z) (w : world)
    file argv :
  argv_of args = Some (file :: argv) ->
  os_execvp sys file (file :: argv) = false ->
  after_fork sys 0 args background w = Halt (Exited 1).
Proof.
  intros Hargs Hex. unfold after_fork.
  destruct (argv_of_cons_inv _ _ _ Hargs) as (args' & -> & _).
  change (load (Str file :: args') 0) with (Ret (Str file)).
  change (0 <? 0) with false. change (0 =? 0) with true.
  cbv beta iota delta [bind]. now rewrite Hargs, Hex.
Qed.

Lemma parse_cases (line : string) :
  (exists args background, parse line = Ret (args, background))
  \/ parse line = Fault OutOfBounds.
Proof.
  rewrite ParseFacts.parse_spec. cbv zeta. case_decide; eauto.
Qed.

Lemma handle_builtin_stdin (args : list ptr) (running : Z) (w : world) r run' w' :
  handle_builtin sys args running w = Ret (r, run', w') ->
  w_stdin w' = w_stdin w.
Proof.
  intros H. apply handle_builtin_inv in H as (c & _ & H).
  destruct H as [(_ & _ & _ & ->) | [(_ & _ & path & H) | H]].
  - reflexivity.
  - destruct H as [(d & _ & _ & ->) | (_ & _ & ->)]; reflexivity.
  - destruct H as (_ & _ & _ & _ & _ & _ & ->). reflexivity.
Qed.

Lemma handle_builtin_cases (args : list ptr) (running : Z) (w : world) :
  (exists r run' w', handle_builtin sys args running w = Ret (r, run', w'))
  \/ (exists f, handle_builtin sys args running w = Fault f).
Proof.
  unfold handle_builtin, load, strcmp_either, strcmp_eq.
  destruct (args !! 0%nat) as [[| |c]|]; simpl; eauto.
  destruct (String.eqb c "exit"); simpl; eauto.
  destruct (String.eqb c "quit"); simpl; eauto.
  destruct (String.eqb c "cd" || String.eqb c "chdir") eqn:E.
  - assert (forall (k : bool -> result (Z * Z * world)),
              bind (if String.eqb c "cd" then Ret true
                    else Ret (String.eqb c "chdir")) k = k true) as ->.
    { intros k. apply orb_true_iff in E as [-> | E]; [reflexivity|].
      destruct (String.eqb c "cd"); simpl; [reflexivity | now rewrite E]. }
    destruct (args !! 1%nat) as [[| |p]|]; simpl; eauto;
      match goal with
      | |- context [os_chdir sys ?cwd ?path] =>
          destruct (os_chdir sys cwd path); eauto 6
      end.
  - apply orb_false_iff in E as [-> ->]. simpl. eauto 6.
Qed.

(** What a pass through the loop body can do. *)
Lemma read_line_spec (s : string) :
  s = fst (read_line s) ++ snd (read_line s) /\
  (s <> EmptyString -> fst (read_line s) <> EmptyString) /\
  (forall tl, fst (read_line s) = String LF tl -> tl = EmptyString).
Proof.
  induction s as [|c s (IH1 & IH2 & IH3)]; simpl.
  - split; [reflexivity|]. split; intros; congruence.
  - destruct (Ascii.eqb_spec c LF) as [->|Hc]; simpl.
    + split; [reflexivity|]. split; intros; congruence.
    + destruct (read_line s) as [l r]; simpl in *.
      rewrite append_cons, <- IH1.
      split; [reflexivity|]. split; intros; congruence.
Qed.

Lemma getline_Some (w : world) buf w1 :
  getline w = (Some buf, w1) ->
  w_stdin w = buf ++ w_stdin w1 /\
  buf <> EmptyString /\
  (forall tl, buf = String LF tl -> tl = EmptyString) /\
  w_trace w1 = w_trace w.
Proof.
  unfold getline. destruct (w_stdin w) as [|c s] eqn:E; [discriminate|].
  pose proof (read_line_spec (String c s)) as (H1 & H2 & H3).
  destruct (read_line (String c s)) as [l r]. simpl fst in *; simpl snd in *.
  intros [= <- <-]. simpl. repeat split; auto; apply H2; discriminate.
Qed.

Lemma getline_None (w w1 : world) :
  getline w = (None, w1) -> w1 = w /\ w_stdin w = EmptyString.
Proof.
  unfold getline. destruct (w_stdin w) as [|c s] eqn:E.
  - now intros [= <-].
  - destruct (read_line (String c s)); discriminate.
Qed.

End LoopFacts.

Section MainFacts.

Variable sys : os.

Import CStr.

(** The body of the loop on a line that is not blank, once the parser and
    the dispatcher have returned. *)
Lemma loop_body_dispatch (buf : string) (running : Z) (w : world)
    ch tl args background r run' w1 :
  buf = String ch tl ->
  Ascii.eqb ch LF = false ->
  parse (c_str (chomp buf)) = Ret (args, background) ->
  handle_builtin sys args running w = Ret (r, run', w1) ->
  loop_body sys buf running w =
  if negb (r =? 0) then
    Ret (if run' =? 0 then inr 0 else inl run', w1)
  else
    bind (execute sys args background w1) (fun w2 => Ret (inl run', w2)).
Proof.
  intros -> Hch Hparse Hb. unfold loop_body. rewrite Hch, Hparse. simpl bind.
  rewrite Hb. simpl bind. destruct (negb (r =? 0)); [|reflexivity].
  now destruct (run' =? 0).
Qed.

Lemma parse_empty :
  parse EmptyString = Ret (Spec.arg_vector [], 0).
Proof. reflexivity. Qed.

(** A line [getline] delivered whose first token exists is not blank. *)
Lemma first_token_not_blank (buf : string) args background c :
  (forall tl, buf = String LF tl -> tl = EmptyString) ->
  parse (c_str (chomp buf)) = Ret (args, background) ->
  args !! 0%nat = Some (Str c) ->
  exists ch tl, buf = String ch tl /\ Ascii.eqb ch LF = false.
Proof.
  intros Hlf Hparse H0. destruct buf as [|ch tl].
  - simpl in Hparse. rewrite parse_empty in Hparse.
    injection Hparse as <- _. discriminate.
  - exists ch, tl. split; [reflexivity|].
    destruct (Ascii.eqb_spec ch LF) as [->|]; [|reflexivity].
    rewrite (Hlf tl eq_refl) in Hparse. simpl in Hparse.
    rewrite parse_empty in Hparse. injection Hparse as <- _. discriminate.
Qed.

(** Every way the body of the loop can return. *)
Lemma loop_body_inv (buf : string) (running : Z) (w : world) next w' :
  loop_body sys buf running w = Ret (next, w') ->
  (exists tl, buf = String LF tl /\ next = inl running /\ w' = w)
  \/ exists args background r run' w1,
       parse (c_str (chomp buf)) = Ret (args, background) /\
       handle_builtin sys args running w = Ret (r, run', w1) /\
       ( (r <> 0 /\ run' = 0 /\ next = inr 0 /\ w' = w1)
         \/ (r <> 0 /\ run' <> 0 /\ next = inl run' /\ w' = w1)
         \/ (r = 0 /\ next = inl run' /\
             execute sys args background w1 = Ret w') ).
Proof.
  destruct buf as [|ch tl]; [discriminate|].
  destruct (Ascii.eqb_spec ch LF) as [->|Hch].
  { simpl. intros [= <- <-]. left. now exists tl. }
  apply Ascii.eqb_neq in Hch. intros H. right.
  destruct (parse_cases (c_str (chomp (String ch tl))))
    as [(args & bg & Hparse) | Hparse].
  2:{ unfold loop_body in H. rewrite Hch, Hparse in H. discriminate. }
  destruct (handle_builtin_cases sys args running w)
    as [(r & run' & w1 & Hb) | (f & Hb)].
  2:{ unfold loop_body in H. rewrite Hch, Hparse in H. simpl bind in H.
      rewrite Hb in H. discriminate. }
  rewrite (loop_body_dispatch _ _ _ _ _ _ _ _ _ _ eq_refl Hch Hparse Hb) in H.
  exists args, bg, r, run', w1. split; [exact Hparse|]. split; [exact Hb|].
  destruct (Z.eqb_spec r 0) as [->|Hr]; simpl in H.
  - right; right. split; [reflexivity|].
    destruct (execute sys args bg w1) as [w2| | |]; simpl in H; try discriminate.
    injection H as <- <-. now split.
  - destruct (Z.eqb_spec run' 0) as [->|Hrun]; injection H as <- <-.
    + left. tauto.
    + right; left. tauto.
Qed.



(** The loop is not run again with a cleared flag. *)
Lemma loop_body_running (buf : string) (running : Z) (w : world) run' w' :
  running <> 0 ->
  loop_body sys buf running w = Ret (inl run', w') -> run' <> 0.
Proof.
  intros Hrun H. apply loop_body_inv in H as [(tl & _ & [= <-] & _) | H];
    [exact Hrun|].
  destruct H as (args & bg & r & run1 & w1 & _ & Hb & H).
  destruct H as [(_ & _ & [=] & _) | [(_ & Hne & [= <-] & _) | (-> & [= <-] & _)]];
    [exact Hne|].
  apply handle_builtin_inv in Hb as (c & _ & Hb).
  destruct Hb as [(_ & [=] & _) | [(_ & _ & path & Hb) | Hb]].
  - destruct Hb as [(d & _ & [=] & _) | (_ & [=] & _)].
  - destruct Hb as (_ & _ & _ & _ & _ & -> & _). exact Hrun.
Qed.


End MainFacts.

Section MainLoopFacts.

Variable sys : os.

Import CStr.

Lemma main_loop_unfold (fuel : nat) (running : Z) (w : world) :
  running <> 0 ->
  main_loop sys (S fuel) running w =
  match getline (log EvPrompt w) with
  | (None, w1) => Ret (1, log (EvPerror "getLine") w1)
  | (Some buf, w1) =>
      bind (loop_body sys buf running w1)
        (fun '(next, w2) =>
           match next with
           | inl running => main_loop sys fuel running w2
           | inr status => Ret (status, w2)
           end)
  end.
Proof.
  intros H. simpl. apply Z.eqb_neq in H. now rewrite H.
Qed.




(** A line beginning with [exit] or [quit] ends the loop with status 0 and
    leaves the rest of the input unread. *)
Lemma main_loop_leave (fuel : nat) (running : Z) (w : world)
    buf w1 args background c :
  running <> 0 ->
  getline (log EvPrompt w) = (Some buf, w1) ->
  parse (c_str (chomp buf)) = Ret (args, background) ->
  args !! 0%nat = Some (Str c) ->
  c = "exit" \/ c = "quit" ->
  main_loop sys (S fuel) running w = Ret (0, w1).
Proof.
  intros Hrun Hg Hparse H0 Hc. rewrite main_loop_unfold by exact Hrun.
  rewrite Hg. apply getline_Some in Hg as (_ & _ & Hlf & _).
  destruct (first_token_not_blank _ _ _ _ Hlf Hparse H0) as (ch & tl & Hbuf & Hch).
  rewrite (loop_body_dispatch sys _ _ _ _ _ _ _ _ _ _ Hbuf Hch Hparse
             (handle_builtin_leave sys _ _ _ _ H0 Hc)).
  reflexivity.
Qed.

End MainLoopFacts.

(** ** Runs of the loop *)

Section RunFacts.

Import CStr Spec.





Lemma builtin_name_dec (c : string) : {builtin_name c} + {~ builtin_name c}.
Proof.
  unfold builtin_name.
  destruct (String.eqb_spec c "exit"); [left; tauto|].
  destruct (String.eqb_spec c "quit"); [left; tauto|].
  destruct (String.eqb_spec c "cd"); [left; tauto|].
  destruct (String.eqb_spec c "chdir"); [left; tauto|].
  right. tauto.
Qed.

Lemma handle_builtin_other (sys : os) (args : list ptr) (running : Z) (w : world) c :
  args !! 0%nat = Some (Str c) ->
  ~ builtin_name c ->
  handle_builtin sys args running w = Ret (NOT_BUILTIN, running, w).
Proof.
  unfold builtin_name. intros H0 Hc.
  unfold handle_builtin. rewrite (load_Str _ _ _ H0).
  unfold strcmp_either, strcmp_eq. simpl.
  destruct (String.eqb_spec c "exit"); [tauto|]. simpl.
  destruct (String.eqb_spec c "quit"); [tauto|]. simpl.
  destruct (String.eqb_spec c "cd"); [tauto|]. simpl.
  destruct (String.eqb_spec c "chdir"); [tauto|]. reflexivity.
Qed.

Lemma argv_of_head (args : list ptr) (c : string) (rest : list string) :
  argv_of args = Some (c :: rest) -> args !! 0%nat = Some (Str c).
Proof. intros H. now apply argv_of_cons_inv in H as (args' & -> & _). Qed.



End RunFacts.

(** * The claims *)

Section Claims.
Import CStr Spec.

(** C1 (the code breaks it). The claim: the argument sequence is never
    empty when it reaches the dispatcher. The code: a line holding only a
    space, or only the background marker, is parsed to the empty sequence,
    [main] hands it to [handle_builtin] all the same, and the first
    [strcmp] there is given the NULL in cell 0. *)
Theorem blank_line_reaches_dispatcher (sys : os) (w : world) (rest : string) :
  parse " " = Ret (arg_vector [], 0) /\
  parse "#" = Ret (arg_vector [], 1) /\
  argv_of (arg_vector []) = Some [] /\
  handle_builtin sys (arg_vector []) 1 w = Fault NullDeref /\
  main sys (set_stdin (String " " (String LF rest)) w) = Fault NullDeref /\
  main sys (set_stdin (String "#" (String LF rest)) w) = Fault NullDeref.
Proof. repeat split. Qed.

(** C2, as the code has it. When the first token equal to the background
    marker is the [k]-th token of the line and at most [MAX_ARGS - 1] tokens
    stand in front of it, [parse] returns the first [k - 1] tokens in order,
    terminated by NULL where the marker stood, with the background flag 1;
    what follows the marker plays no part. *)
Theorem parse_marker_truncates (line : string) (k : nat) :
  (1 <= k)%nat ->
  tokens line !! (k - 1)%nat = Some MARKER ->
  MARKER ∉ take (k - 1) (tokens line) ->
  (k - 1 < MAX_ARGS)%nat ->
  exists args,
    parse line = Ret (args, 1) /\
    argv_of args = Some (take (k - 1) (tokens line)) /\
    args !! (k - 1)%nat = Some NULL.
Proof.
  intros _ Hk Hfirst Hfit.
  destruct (VectorFacts.before_marker_take _ _ Hk Hfirst) as [Hkept Hmark].
  assert (Hlen : length (take (k - 1) (tokens line)) = (k - 1)%nat).
  { apply length_take_le. apply lookup_lt_Some in Hk. lia. }
  exists (arg_vector (take (k - 1) (tokens line))).
  rewrite ParseFacts.parse_spec. cbv zeta. rewrite Hkept, Hmark, Hlen.
  case_decide; [|lia]. split; [reflexivity|].
  split; [apply VectorFacts.argv_of_arg_vector|].
  pose proof (VectorFacts.arg_vector_NULL (take (k - 1) (tokens line))) as Hn.
  now rewrite Hlen in Hn.
Qed.

Lemma parse_marker_truncates_witness :
  exists args,
    parse "ls -l # -a  #" = Ret (args, 1) /\
    argv_of args = Some (take (3 - 1) (tokens "ls -l # -a  #")) /\
    args !! (3 - 1)%nat = Some NULL.
Proof.
  apply (parse_marker_truncates "ls -l # -a  #" 3).
  - lia.
  - reflexivity.
  - vm_compute. intros H. apply list_elem_of_In in H. simpl in H.
    destruct H as [H | [H | []]]; discriminate.
  - unfold MAX_ARGS. lia.
Defined.

(** C2 as stated fails: with 128 tokens in front of the marker the NULL is
    stored in cell 128 of an array of 128 cells. *)
Lemma marker_at_129_overflows :
  tokens line_129 !! (129 - 1)%nat = Some MARKER /\
  (MARKER ∉ take (129 - 1) (tokens line_129)) /\
  parse line_129 = Fault OutOfBounds /\
  ~ exists args,
      parse line_129 = Ret (args, 1) /\
      argv_of args = Some (take (129 - 1) (tokens line_129)).
Proof.
  assert (Hp : parse line_129 = Fault OutOfBounds) by (vm_compute; reflexivity).
  split; [vm_compute; reflexivity|]. split.
  - assert (E : take (129 - 1) (tokens line_129) = replicate 128 "a")
      by (vm_compute; reflexivity).
    rewrite E. intros H. apply elem_of_replicate in H as [H _]. discriminate.
  - split; [exact Hp|]. intros (args & H & _). rewrite Hp in H. discriminate.
Qed.

(** C3, as the code has it. A line without a marker token and with at most
    [MAX_ARGS - 1] tokens is parsed to exactly its tokens, the pieces
    between runs of the space character, in order, with the background flag
    0; none of the tokens is empty or holds a space. *)
Theorem parse_no_marker (line : string) :
  MARKER ∉ tokens line ->
  (length (tokens line) < MAX_ARGS)%nat ->
  exists args,
    parse line = Ret (args, 0) /\
    argv_of args = Some (tokens line) /\
    Forall (fun t => t <> EmptyString /\ has_space t = false) (tokens line).
Proof.
  intros Hno Hfit.
  destruct (VectorFacts.before_marker_none _ Hno) as [Hkept Hmark].
  exists (arg_vector (tokens line)).
  rewrite ParseFacts.parse_spec. cbv zeta. rewrite Hkept, Hmark.
  case_decide; [|lia]. split; [reflexivity|].
  split; [apply VectorFacts.argv_of_arg_vector|].
  apply VectorFacts.tokens_wellformed.
Qed.

Lemma parse_no_marker_witness :
  exists args,
    parse "  gcc -o  my-shell my-shell.c " = Ret (args, 0) /\
    argv_of args = Some (tokens "  gcc -o  my-shell my-shell.c ") /\
    Forall (fun t => t <> EmptyString /\ has_space t = false)
      (tokens "  gcc -o  my-shell my-shell.c ").
Proof.
  apply (parse_no_marker "  gcc -o  my-shell my-shell.c ").
  - vm_compute. intros H. apply list_elem_of_In in H. simpl in H.
    repeat (destruct H as [H | H]; [discriminate|]). exact H.
  - vm_compute. lia.
Defined.

(** C3 as stated fails: 128 tokens fill the array and leave no cell for the
    NULL. *)
Lemma line_of_128_tokens_overflows :
  (MARKER ∉ tokens line_128) /\
  length (tokens line_128) = 128%nat /\
  parse line_128 = Fault OutOfBounds /\
  ~ exists args,
      parse line_128 = Ret (args, 0) /\ argv_of args = Some (tokens line_128).
Proof.
  assert (Hp : parse line_128 = Fault OutOfBounds) by (vm_compute; reflexivity).
  split.
  - assert (E : tokens line_128 = replicate 128 "a") by (vm_compute; reflexivity).
    rewrite E. intros H. apply elem_of_replicate in H as [H _]. discriminate.
  - split; [vm_compute; reflexivity|]. split; [exact Hp|].
    intros (args & H & _). rewrite Hp in H. discriminate.
Qed.

(** C8, as the code has it. For a line with no leading, trailing or
    repeated space, no marker token and at most [MAX_ARGS - 1] tokens,
    joining the tokens [parse] returns with single spaces gives the line
    back. *)
Theorem parse_join_roundtrip (line : string) :
  single_spaced line = true ->
  MARKER ∉ tokens line ->
  (length (tokens line) < MAX_ARGS)%nat ->
  exists args toks,
    parse line = Ret (args, 0) /\
    argv_of args = Some toks /\
    join toks = line.
Proof.
  intros Hsp Hno Hfit.
  destruct (VectorFacts.before_marker_none _ Hno) as [Hkept Hmark].
  exists (arg_vector (tokens line)), (tokens line).
  rewrite ParseFacts.parse_spec. cbv zeta. rewrite Hkept, Hmark.
  case_decide; [|lia]. split; [reflexivity|].
  split; [apply VectorFacts.argv_of_arg_vector|].
  now apply VectorFacts.join_tokens.
Qed.

Lemma parse_join_roundtrip_witness :
  exists args toks,
    parse "cp -r src/a#b dst" = Ret (args, 0) /\
    argv_of args = Some toks /\
    join toks = "cp -r src/a#b dst".
Proof.
  apply (parse_join_roundtrip "cp -r src/a#b dst").
  - reflexivity.
  - vm_compute. intros H. apply list_elem_of_In in H. simpl in H.
    repeat (destruct H as [H | H]; [discriminate|]). exact H.
  - vm_compute. lia.
Defined.

(** C8 as stated fails: a single-spaced line of 200 tokens has no marker,
    and [parse] runs off the end of the array on it. *)
Lemma long_single_spaced_line_overflows :
  single_spaced line_200 = true /\
  (MARKER ∉ tokens line_200) /\
  parse line_200 = Fault OutOfBounds /\
  ~ exists args toks,
      parse line_200 = Ret (args, 0) /\
      argv_of args = Some toks /\ join toks = line_200.
Proof.
  assert (Hp : parse line_200 = Fault OutOfBounds) by (vm_compute; reflexivity).
  split; [vm_compute; reflexivity|]. split.
  - assert (E : tokens line_200 = (replicate 199 "a" ++ ["z"])%list)
      by (vm_compute; reflexivity).
    rewrite E. intros H. apply elem_of_app in H as [H | H].
    + apply elem_of_replicate in H as [H _]. discriminate.
    + apply list_elem_of_singleton in H. discriminate.
  - split; [exact Hp|]. intros (args & toks & H & _). rewrite Hp in H.
    discriminate.
Qed.

(** C9. [parse] has no bound check: with [kept] the tokens in front of any
    marker, it returns exactly when [kept] has at most 127 members, and the
    array it returns then has the [MAX_ARGS] cells that were allocated, the
    kept tokens in cells [0 .. length kept - 1] and NULL in cell
    [length kept]; with more than 127 it stores outside the array. *)
Theorem parse_bounds (line : string) :
  let kept := before_marker (tokens line) in
  parse line =
    (if decide (length kept <= 127)%nat
     then Ret (arg_vector kept, flag (has_marker (tokens line)))
     else Fault OutOfBounds) /\
  length (arg_vector kept) = Nat.max MAX_ARGS (S (length kept)) /\
  argv_of (arg_vector kept) = Some kept /\
  arg_vector kept !! length kept = Some NULL /\
  MAX_ARGS = 128%nat.
Proof.
  intros kept. split.
  - rewrite ParseFacts.parse_spec. cbv zeta. fold kept. unfold MAX_ARGS.
    do 2 case_decide; try lia; reflexivity.
  - split; [apply VectorFacts.arg_vector_length|].
    split; [apply VectorFacts.argv_of_arg_vector|].
    split; [apply VectorFacts.arg_vector_NULL | reflexivity].
Qed.

(** C4. For a command whose first token is [cd] or [chdir], [chdir] is
    called on the second token when there is one and on the value of [HOME]
    otherwise. When the call fails the dispatcher returns -1, the working
    directory and the running flag are as before and the loop goes on to
    the next line; when it succeeds the dispatcher returns 1 and the working
    directory is the one [chdir] went to. *)
Theorem cd_changes_directory (sys : os) (args : list ptr) (running : Z)
    (w : world) (c : string) (rest : list string) :
  argv_of args = Some (c :: rest) ->
  c = "cd" \/ c = "chdir" ->
  let path := match rest with
              | p :: _ => Some p
              | [] => getenv "HOME" w
              end in
  exists r w',
    handle_builtin sys args running w = Ret (r, running, w') /\
    match os_chdir sys (w_cwd w) path with
    | None =>
        r = HANDLED_ERROR /\ w_cwd w' = w_cwd w /\
        w_trace w' = (w_trace w ++ [EvChdir path; EvPerror "cd"])%list
    | Some d =>
        r = HANDLED /\ w_cwd w' = d /\
        w_trace w' = (w_trace w ++ [EvChdir path])%list
    end /\
    (running <> 0 ->
     forall ch tl background,
       Ascii.eqb ch LF = false ->
       parse (c_str (chomp (String ch tl))) = Ret (args, background) ->
       loop_body sys (String ch tl) running w = Ret (inl running, w')).
Proof.
  intros Hargs Hc path.
  pose proof (handle_builtin_cd sys args running w c rest Hargs Hc) as Hb.
  cbv zeta in Hb. change (cd_target rest w) with path in Hb.
  assert (Hloop : forall r w', handle_builtin sys args running w = Ret (r, running, w') ->
            r <> 0 -> running <> 0 ->
            forall ch tl background,
              Ascii.eqb ch LF = false ->
              parse (c_str (chomp (String ch tl))) = Ret (args, background) ->
              loop_body sys (String ch tl) running w = Ret (inl running, w')).
  { intros r w' Hr Hne Hrun ch tl bg Hch Hparse.
    rewrite (loop_body_dispatch sys _ _ _ _ _ _ _ _ _ _ eq_refl Hch Hparse Hr).
    apply Z.eqb_neq in Hne, Hrun. now rewrite Hne, Hrun. }
  destruct (os_chdir sys (w_cwd w) path) as [d|] eqn:Hch.
  - eexists _, _. split; [exact Hb|]. split.
    + split; [reflexivity|]. split; reflexivity.
    + apply (Hloop _ _ Hb). discriminate.
  - eexists _, _. split; [exact Hb|]. split.
    + split; [reflexivity|]. split; [reflexivity|].
      simpl. now rewrite <- app_assoc.
    + apply (Hloop _ _ Hb). discriminate.
Qed.

Lemma cd_changes_directory_witness :
  exists r w',
    handle_builtin demo_os (arg_vector ["cd"; "/nowhere"]) 1
      (demo_world EmptyString) = Ret (r, 1, w') /\
    r = HANDLED_ERROR /\ w_cwd w' = "/" /\
    w_trace w' = [EvChdir (Some "/nowhere"); EvPerror "cd"].
Proof.
  destruct (cd_changes_directory demo_os (arg_vector ["cd"; "/nowhere"]) 1
              (demo_world EmptyString) "cd" ["/nowhere"])
    as (r & w' & Hb & Hres & _).
  - reflexivity.
  - left. reflexivity.
  - exists r, w'. split; [exact Hb|]. exact Hres.
Defined.

(** C10. With [cd] or [chdir] as the only token and [HOME] not set,
    [getenv] yields NULL and that NULL is what [chdir] is called with: no
    test stands between the two calls. *)
Theorem cd_without_home_passes_null (sys : os) (args : list ptr)
    (running : Z) (w : world) (c : string) :
  argv_of args = Some [c] ->
  c = "cd" \/ c = "chdir" ->
  getenv "HOME" w = None ->
  handle_builtin sys args running w =
  match os_chdir sys (w_cwd w) None with
  | Some d => Ret (HANDLED, running, set_cwd d (log (EvChdir None) w))
  | None =>
      Ret (HANDLED_ERROR, running,
           log (EvPerror "cd") (log (EvChdir None) w))
  end.
Proof.
  intros Hargs Hc Hhome.
  rewrite (handle_builtin_cd sys args running w c [] Hargs Hc).
  cbv zeta. unfold cd_target. now rewrite Hhome.
Qed.

Lemma cd_without_home_passes_null_witness :
  handle_builtin demo_os (arg_vector ["chdir"]) 1 (bare_world EmptyString) =
  Ret (HANDLED_ERROR, 1,
       log (EvPerror "cd") (log (EvChdir None) (bare_world EmptyString))).
Proof.
  apply (cd_without_home_passes_null demo_os (arg_vector ["chdir"]) 1
           (bare_world EmptyString) "chdir").
  - reflexivity.
  - right. reflexivity.
  - reflexivity.
Defined.

Lemma spawn_count_app (t u : list event) :
  spawn_count (t ++ u) = (spawn_count t + spawn_count u)%nat.
Proof. unfold spawn_count. now rewrite List.filter_app, length_app. Qed.

(** The dispatcher spawns nothing. *)
Lemma handle_builtin_spawn_count (sys : os) (args : list ptr) (running : Z)
    (w : world) r run' w' :
  handle_builtin sys args running w = Ret (r, run', w') ->
  spawn_count (w_trace w') = spawn_count (w_trace w).
Proof.
  intros H. apply handle_builtin_inv in H as (c & _ & H).
  destruct H as [(_ & _ & _ & ->) | [(_ & _ & path & H) | H]].
  - reflexivity.
  - destruct H as [(d & _ & _ & ->) | (_ & _ & ->)]; simpl;
      rewrite ?spawn_count_app; unfold spawn_count; simpl; lia.
  - destruct H as (_ & _ & _ & _ & _ & _ & ->). reflexivity.
Qed.

Lemma handle_builtin_codes (sys : os) (args : list ptr) (running : Z)
    (w : world) r run' w' :
  handle_builtin sys args running w = Ret (r, run', w') ->
  r = NOT_BUILTIN \/ r = HANDLED \/ r = HANDLED_ERROR.
Proof.
  intros H. apply handle_builtin_inv in H as (c & _ & H).
  destruct H as [(_ & -> & _) | [(_ & _ & path & H) | H]].
  - tauto.
  - destruct H as [(d & _ & -> & _) | (_ & -> & _)]; tauto.
  - destruct H as (_ & _ & _ & _ & -> & _). tauto.
Qed.

(** C5. The dispatcher returns one of three different values, 0 (not a
    builtin), 1 (handled) and -1 (handled, with an error): 1 for [exit] and
    [quit], 1 or -1 for [cd] and [chdir] as [chdir] succeeds or fails, 0 for
    every other first word. A pass through the loop body calls [execute],
    and so [fork], exactly when the value is 0; on 1 and on -1, a failed [cd]
    among them, the world is left as the dispatcher left it and nothing is
    spawned. *)
Theorem dispatcher_routes (sys : os) (ch : ascii) (tl : string)
    (running : Z) (w : world) (args : list ptr) (background : Z)
    (c : string) (rest : list string) :
  Ascii.eqb ch LF = false ->
  parse (c_str (chomp (String ch tl))) = Ret (args, background) ->
  argv_of args = Some (c :: rest) ->
  (NOT_BUILTIN <> HANDLED /\ NOT_BUILTIN <> HANDLED_ERROR /\
   HANDLED <> HANDLED_ERROR) /\
  exists run' w1 next w',
    handle_builtin sys args running w
      = Ret (dispatch_code sys c rest w, run', w1) /\
    loop_body sys (String ch tl) running w = Ret (next, w') /\
    (dispatch_code sys c rest w = NOT_BUILTIN ->
     execute sys args background w1 = Ret w' /\
     spawn_count (w_trace w') = S (spawn_count (w_trace w))) /\
    (dispatch_code sys c rest w <> NOT_BUILTIN ->
     w' = w1 /\ spawn_count (w_trace w') = spawn_count (w_trace w)).
Proof.
  intros Hch Hparse Hargs.
  split; [repeat split; discriminate|].
  assert (Hb : exists run' w1,
            handle_builtin sys args running w
            = Ret (dispatch_code sys c rest w, run', w1)).
  { pose proof (argv_of_head _ _ _ Hargs) as H0.
    destruct (builtin_name_dec c) as [[-> | [-> | Hc]] | Hc].
    - eexists _, _. now apply handle_builtin_leave with (c := "exit"); auto.
    - eexists _, _. now apply handle_builtin_leave with (c := "quit"); auto.
    - rewrite (handle_builtin_cd sys args running w c rest Hargs Hc).
      cbv zeta. unfold dispatch_code.
      destruct Hc as [-> | ->]; simpl;
        destruct (os_chdir sys (w_cwd w) (cd_target rest w)); eauto.
    - eexists _, _. rewrite (handle_builtin_other sys _ _ _ _ H0 Hc).
      unfold dispatch_code, builtin_name in *.
      destruct (String.eqb_spec c "exit"); [tauto|].
      destruct (String.eqb_spec c "quit"); [tauto|].
      destruct (String.eqb_spec c "cd"); [tauto|].
      destruct (String.eqb_spec c "chdir"); [tauto|]. reflexivity. }
  destruct Hb as (run' & w1 & Hb). exists run', w1.
  pose proof (handle_builtin_spawn_count _ _ _ _ _ _ _ Hb) as Hcount.
  rewrite (loop_body_dispatch sys _ _ _ _ _ _ _ _ _ _ eq_refl Hch Hparse Hb).
  unfold NOT_BUILTIN.
  destruct (Z.eqb_spec (dispatch_code sys c rest w) 0) as [Hr|Hr]; simpl.
  - destruct (execute_shell sys args background w1)
      as (w2 & e & He & _ & Ht & Hno).
    rewrite He. simpl. exists (inl run'), w2. split; [exact Hb|].
    split; [reflexivity|]. split; [|congruence]. intros _.
    split; [reflexivity|].
    rewrite Ht, spawn_count_app, Hcount.
    unfold spawn_count at 2. simpl. rewrite Hno. simpl. lia.
  - eexists _, w1. split; [exact Hb|]. split; [reflexivity|].
    split; [congruence|]. intros _. split; [reflexivity | exact Hcount].
Qed.

Lemma dispatcher_routes_witness :
  (exists run' w1 next w',
     handle_builtin demo_os (arg_vector ["cd"; "/nowhere"]) 1
       (demo_world EmptyString) = Ret (HANDLED_ERROR, run', w1) /\
     loop_body demo_os "cd /nowhere" 1 (demo_world EmptyString)
       = Ret (next, w') /\
     w' = w1 /\ spawn_count (w_trace w') = 0%nat)
  /\
  (exists run' w1 next w',
     handle_builtin demo_os (arg_vector ["ls"; "-l"]) 1
       (demo_world EmptyString) = Ret (NOT_BUILTIN, run', w1) /\
     loop_body demo_os "ls -l" 1 (demo_world EmptyString) = Ret (next, w') /\
     spawn_count (w_trace w') = 1%nat).
Proof.
  split.
  - destruct (dispatcher_routes demo_os "c" "d /nowhere" 1
                (demo_world EmptyString) (arg_vector ["cd"; "/nowhere"]) 0
                "cd" ["/nowhere"] eq_refl eq_refl eq_refl)
      as (_ & run' & w1 & next & w' & Hb & Hbody & _ & Hin).
    exists run', w1, next, w'. split; [exact Hb|]. split; [exact Hbody|].
    apply Hin. discriminate.
  - destruct (dispatcher_routes demo_os "l" "s -l" 1
                (demo_world EmptyString) (arg_vector ["ls"; "-l"]) 0
                "ls" ["-l"] eq_refl eq_refl eq_refl)
      as (_ & run' & w1 & next & w' & Hb & Hbody & Hex & _).
    exists run', w1, next, w'. split; [exact Hb|]. split; [exact Hbody|].
    now destruct (Hex eq_refl).
Defined.

(** C6. When cell 0 of the argument vector holds exactly [exit] or [quit],
    whatever the other cells hold, the dispatcher clears the running flag
    and returns 1 with the world untouched; and a pass of the loop that
    reads such a line ends [main] with status 0 in the world the read left,
    so that the input behind the line stays unread. *)
Theorem exit_quit_leave (sys : os) (args : list ptr) (c : string) :
  args !! 0%nat = Some (Str c) ->
  c = "exit" \/ c = "quit" ->
  (forall running w, handle_builtin sys args running w = Ret (HANDLED, 0, w))
  /\
  (forall fuel running w buf w1 background,
     running <> 0 ->
     getline (log EvPrompt w) = (Some buf, w1) ->
     parse (c_str (chomp buf)) = Ret (args, background) ->
     main_loop sys (S fuel) running w = Ret (0, w1) /\
     w_stdin w = buf ++ w_stdin w1).
Proof.
  intros H0 Hc. split.
  - intros running w. now apply handle_builtin_leave with (c := c).
  - intros fuel running w buf w1 bg Hrun Hg Hparse. split.
    + now apply main_loop_leave with (buf := buf) (args := args)
        (background := bg) (c := c).
    + now apply getline_Some in Hg as (Hs & _).
Qed.

Lemma exit_quit_leave_witness :
  handle_builtin demo_os [Str "quit"; Undef] 1 (demo_world "ls") =
    Ret (HANDLED, 0, demo_world "ls")
  /\ main demo_os (demo_world ("exit now" ++ nl ++ "ls" ++ nl)) =
     Ret (0, log EvPrompt (demo_world ("ls" ++ nl))).
Proof.
  split.
  - apply (exit_quit_leave demo_os [Str "quit"; Undef] "quit");
      [reflexivity | right; reflexivity].
  - apply (exit_quit_leave demo_os (arg_vector ["exit"; "now"]) "exit"
             eq_refl (or_introl eq_refl))
      with (buf := "exit now" ++ nl) (background := 0).
    + discriminate.
    + reflexivity.
    + reflexivity.
Defined.

(** [exit] and [quit] are matched letter for letter. *)
Lemma exit_is_case_sensitive (sys : os) (running : Z) (w : world) :
  handle_builtin sys (arg_vector ["EXIT"]) running w
  = Ret (NOT_BUILTIN, running, w)
  /\ handle_builtin sys (arg_vector ["exi"]) running w
    = Ret (NOT_BUILTIN, running, w)
  /\ handle_builtin sys (arg_vector ["quit!"]) running w
    = Ret (NOT_BUILTIN, running, w).
Proof. repeat split. Qed.




End Claims.

(** * Further properties of the code *)

(** ** Tokens of lines put together *)

Module TokenAlgebra.
Import CStr Spec.

Lemma split_from_app_space (a b : string) : forall cur,
  split_from cur (a ++ String SP b) = (split_from cur a ++ tokens b)%list.
Proof.
  induction a as [|c a IH]; intros cur.
  - rewrite append_nil_l. simpl. destruct cur; reflexivity.
  - rewrite append_cons. simpl. destruct (Ascii.eqb c SP).
    + destruct cur; rewrite IH; reflexivity.
    + apply IH.
Qed.

Lemma tokens_app_space (a b : string) :
  tokens (a ++ String SP b) = (tokens a ++ tokens b)%list.
Proof. apply split_from_app_space. Qed.

Lemma tokens_space_l (line : string) : tokens (String SP line) = tokens line.
Proof. reflexivity. Qed.

Lemma tokens_space_r (line : string) : tokens (line ++ " ") = tokens line.
Proof.
  change " " with (String SP EmptyString). rewrite tokens_app_space.
  apply app_nil_r.
Qed.

Lemma split_from_word (t s : string) : forall cur,
  has_space t = false -> split_from cur (t ++ s) = split_from (cur ++ t) s.
Proof.
  induction t as [|c t IH]; intros cur Ht.
  - now rewrite append_nil_l, append_nil_r.
  - simpl in Ht. apply orb_false_iff in Ht as [Hc Ht].
    rewrite append_cons. simpl. rewrite Hc, IH by exact Ht.
    now rewrite append_snoc.
Qed.

Lemma tokens_word (t : string) :
  t <> EmptyString -> has_space t = false -> tokens t = [t].
Proof.
  intros Hne Ht. unfold tokens.
  rewrite <- (append_nil_r t) at 1. rewrite split_from_word by exact Ht.
  simpl. destruct t; [congruence | reflexivity].
Qed.

Lemma tokens_join (toks : list string) :
  Forall (fun t => t <> EmptyString /\ has_space t = false) toks ->
  tokens (join toks) = toks.
Proof.
  induction toks as [|t toks IH]; intros H; [reflexivity|].
  apply Forall_cons in H as [[Hne Ht] H].
  destruct toks as [|u toks]; [now apply tokens_word|].
  change (join (t :: u :: toks)) with (t ++ String SP (join (u :: toks))).
  rewrite tokens_app_space, IH by exact H.
  now rewrite tokens_word.
Qed.

Lemma before_marker_app_marker (l1 l2 : list string) :
  before_marker (l1 ++ MARKER :: l2) = before_marker l1.
Proof.
  induction l1 as [|t l1 IH]; simpl; [reflexivity|].
  destruct (is_marker t); [reflexivity | now rewrite IH].
Qed.

Lemma has_marker_app_marker (l1 l2 : list string) :
  has_marker (l1 ++ MARKER :: l2) = true.
Proof.
  unfold has_marker. rewrite existsb_app. simpl. apply orb_true_r.
Qed.

Lemma before_marker_no_marker (toks : list string) :
  MARKER ∉ before_marker toks.
Proof.
  induction toks as [|t toks IH]; simpl; [apply not_elem_of_nil|].
  unfold is_marker at 1. destruct (String.eqb_spec t MARKER) as [->|Hne].
  - apply not_elem_of_nil.
  - apply not_elem_of_cons. split; [congruence | exact IH].
Qed.

Lemma before_marker_wellformed (P : string -> Prop) (toks : list string) :
  Forall P toks -> Forall P (before_marker toks).
Proof.
  induction 1 as [|t toks Ht H IH]; simpl; [constructor|].
  destruct (is_marker t); constructor; assumption.
Qed.

Lemma has_marker_false (toks : list string) :
  has_marker toks = false -> before_marker toks = toks.
Proof.
  induction toks as [|t toks IH]; simpl; [reflexivity|].
  intros H. apply orb_false_iff in H as [-> H]. now rewrite IH.
Qed.

(** [parse] looks at a line through its tokens only. *)
Lemma parse_tokens_ext (l1 l2 : string) :
  before_marker (tokens l1) = before_marker (tokens l2) ->
  has_marker (tokens l1) = has_marker (tokens l2) ->
  parse l1 = parse l2.
Proof.
  intros Hk Hm. rewrite !ParseFacts.parse_spec. cbv zeta. now rewrite Hk, Hm.
Qed.

Lemma parse_tokens_eq (l1 l2 : string) :
  tokens l1 = tokens l2 -> parse l1 = parse l2.
Proof. intros H. apply parse_tokens_ext; now rewrite H. Qed.

End TokenAlgebra.

(** ** The parser *)

Section ParserProperties.
Import CStr Spec TokenAlgebra.

(** X1. Spaces in front of a line, behind it, or doubled between two words
    change nothing in what [parse] returns. *)
Theorem parse_ignores_extra_spaces (line a b : string) :
  parse (String SP line) = parse line /\
  parse (line ++ " ") = parse line /\
  parse (a ++ "  " ++ b) = parse (a ++ " " ++ b).
Proof.
  split; [|split]; apply parse_tokens_eq.
  - apply tokens_space_l.
  - apply tokens_space_r.
  - change (a ++ "  " ++ b) with (a ++ String SP (String SP b)).
    change (a ++ " " ++ b) with (a ++ String SP b).
    now rewrite !tokens_app_space, tokens_space_l.
Qed.

(** X2. Whatever [parse] returns is fit for [execvp]: the array has its 128
    cells, it holds fewer than 128 strings followed at once by NULL, none of
    the strings is empty, holds a space or is the marker, and the background
    flag is 0 or 1. *)
Theorem parse_result_wellformed (line : string) (args : list ptr)
    (background : Z) :
  parse line = Ret (args, background) ->
  length args = MAX_ARGS /\
  (background = 0 \/ background = 1) /\
  exists kept,
    argv_of args = Some kept /\
    (length kept < MAX_ARGS)%nat /\
    args !! length kept = Some NULL /\
    Forall (fun t => t <> EmptyString /\ has_space t = false) kept /\
    MARKER ∉ kept.
Proof.
  rewrite ParseFacts.parse_spec. cbv zeta. case_decide; [|discriminate].
  intros [= <- <-]. split.
  - rewrite VectorFacts.arg_vector_length. lia.
  - split; [destruct (has_marker (tokens line)); simpl; tauto|].
    exists (before_marker (tokens line)).
    split; [apply VectorFacts.argv_of_arg_vector|].
    split; [assumption|].
    split; [apply VectorFacts.arg_vector_NULL|].
    split; [|apply before_marker_no_marker].
    apply before_marker_wellformed, VectorFacts.tokens_wellformed.
Qed.

Lemma parse_result_wellformed_witness :
  length (arg_vector ["tar"; "xf"; "a.tar"]) = MAX_ARGS /\
  (1 = 0 \/ 1 = 1) /\
  exists kept,
    argv_of (arg_vector ["tar"; "xf"; "a.tar"]) = Some kept /\
    (length kept < MAX_ARGS)%nat /\
    arg_vector ["tar"; "xf"; "a.tar"] !! length kept = Some NULL /\
    Forall (fun t => t <> EmptyString /\ has_space t = false) kept /\
    MARKER ∉ kept.
Proof.
  apply (parse_result_wellformed " tar xf  a.tar # -v").
  reflexivity.
Defined.

(** X3. Words joined with single spaces are parsed back to the same words:
    for fewer than 128 words, none empty, none with a space, none the
    marker, [parse (join words)] returns exactly these words, in the
    foreground. *)
Theorem parse_join_words (words : list string) :
  Forall (fun t => t <> EmptyString /\ has_space t = false) words ->
  MARKER ∉ words ->
  (length words < MAX_ARGS)%nat ->
  exists args,
    parse (join words) = Ret (args, 0) /\ argv_of args = Some words.
Proof.
  intros Hok Hno Hfit. exists (arg_vector words).
  rewrite ParseFacts.parse_spec. cbv zeta. rewrite (tokens_join _ Hok).
  destruct (VectorFacts.before_marker_none _ Hno) as [-> ->].
  case_decide; [|lia]. split; [reflexivity|].
  apply VectorFacts.argv_of_arg_vector.
Qed.

Lemma parse_join_words_witness :
  exists args,
    parse (join ["grep"; "-n"; "#include"; "my-shell.c"]) = Ret (args, 0) /\
    argv_of args = Some ["grep"; "-n"; "#include"; "my-shell.c"].
Proof.
  apply (parse_join_words ["grep"; "-n"; "#include"; "my-shell.c"]).
  - repeat constructor; discriminate.
  - intros H. apply list_elem_of_In in H. simpl in H.
    repeat (destruct H as [H | H]; [discriminate|]). exact H.
  - unfold MAX_ARGS. simpl. lia.
Defined.

(** X4. What stands behind a marker is never looked at: a line cut right
    after its marker is parsed to the same result, also when that result is
    a fault. *)
Theorem parse_ignores_after_marker (line junk : string) :
  parse (line ++ " # " ++ junk) = parse (line ++ " #").
Proof.
  apply parse_tokens_ext.
  - change (line ++ " # " ++ junk)
      with (line ++ String SP ("#" ++ String SP junk)).
    change (line ++ " #") with (line ++ String SP "#").
    rewrite !tokens_app_space.
    change (tokens "#") with [MARKER].
    change ([MARKER] ++ tokens junk)%list with (MARKER :: tokens junk).
    now rewrite !before_marker_app_marker.
  - change (line ++ " # " ++ junk)
      with (line ++ String SP ("#" ++ String SP junk)).
    change (line ++ " #") with (line ++ String SP "#").
    rewrite !tokens_app_space.
    change (tokens "#") with [MARKER].
    change ([MARKER] ++ tokens junk)%list with (MARKER :: tokens junk).
    now rewrite !has_marker_app_marker.
Qed.

(** X5. Putting the marker behind a line keeps the arguments and sets the
    background flag: [parse (line ++ " #")] is what [parse line] is, with
    the flag 1, and faults when [parse line] does. *)
Theorem parse_marker_appended (line : string) :
  parse (line ++ " #") =
  match parse line with
  | Ret (args, _) => Ret (args, 1)
  | other => other
  end.
Proof.
  rewrite !ParseFacts.parse_spec. cbv zeta.
  change (line ++ " #") with (line ++ String SP "#").
  rewrite tokens_app_space. change (tokens "#") with [MARKER].
  rewrite before_marker_app_marker, has_marker_app_marker.
  case_decide; reflexivity.
Qed.

End ParserProperties.

(** ** The dispatcher and the executor *)

Section DispatcherProperties.
Import CStr Spec.

(** X6. The dispatcher is safe exactly on commands that have a first
    token: on a NULL-terminated vector it returns when the vector holds at
    least one string, and hands NULL to [strcmp] when it holds none. *)
Theorem dispatcher_needs_first_token (sys : os) (args : list ptr) (running : Z)
    (w : world) (toks : list string) :
  argv_of args = Some toks ->
  match toks with
  | [] => handle_builtin sys args running w = Fault NullDeref
  | _ :: _ =>
      exists r run' w', handle_builtin sys args running w = Ret (r, run', w')
  end.
Proof.
  intros Hargs. destruct toks as [|c rest].
  - apply argv_of_nil_inv in Hargs as (args' & ->). reflexivity.
  - destruct (builtin_name_dec c) as [[Hc | [Hc | Hc]] | Hc].
    + eexists _, _, _. apply handle_builtin_leave with (c := c);
        [now apply argv_of_head in Hargs | tauto].
    + eexists _, _, _. apply handle_builtin_leave with (c := c);
        [now apply argv_of_head in Hargs | tauto].
    + rewrite (handle_builtin_cd sys args running w c rest Hargs Hc).
      cbv zeta. destruct (os_chdir sys (w_cwd w) (cd_target rest w)); eauto.
    + eexists _, _, _. apply handle_builtin_other with (c := c);
        [now apply argv_of_head in Hargs | exact Hc].
Qed.

Lemma dispatcher_needs_first_token_witness :
  handle_builtin demo_os (arg_vector []) 1 (demo_world EmptyString)
  = Fault NullDeref.
Proof.
  apply (dispatcher_needs_first_token demo_os (arg_vector []) 1
           (demo_world EmptyString) []).
  reflexivity.
Defined.

(** X7. The dispatcher answers "not a builtin" exactly when the first token
    is a string other than [exit], [quit], [cd] and [chdir], and then it has
    changed neither the running flag nor anything in the world. *)
Theorem not_a_builtin_iff (sys : os) (args : list ptr) (running : Z) (w : world)
    (run' : Z) (w' : world) :
  handle_builtin sys args running w = Ret (NOT_BUILTIN, run', w') <->
  exists c,
    args !! 0%nat = Some (Str c) /\ ~ builtin_name c /\
    run' = running /\ w' = w.
Proof.
  split.
  - intros H. apply handle_builtin_inv in H as (c & H0 & H). exists c.
    split; [exact H0|].
    destruct H as [(_ & [=] & _) | [(_ & _ & path & H) | H]].
    + destruct H as [(d & _ & [=] & _) | (_ & [=] & _)].
    + destruct H as (? & ? & ? & ? & _ & -> & ->).
      unfold builtin_name. tauto.
  - intros (c & H0 & Hc & -> & ->). now apply handle_builtin_other with (c := c).
Qed.

(** X8. The dispatcher keeps its hands off the rest of the process: it
    reads no input, changes no environment variable and spawns nothing; it
    clears the running flag or leaves it alone; and unless it returns 1 the
    working directory and the flag are as before. *)
Theorem handle_builtin_frame (sys : os) (args : list ptr) (running : Z) (w : world)
    (r run' : Z) (w' : world) :
  handle_builtin sys args running w = Ret (r, run', w') ->
  w_stdin w' = w_stdin w /\
  w_env w' = w_env w /\
  w_forks w' = w_forks w /\
  (run' = running \/ run' = 0) /\
  (r <> HANDLED -> w_cwd w' = w_cwd w /\ run' = running) /\
  exists evs,
    w_trace w' = (w_trace w ++ evs)%list /\ spawn_count evs = 0%nat.
Proof.
  intros H. apply handle_builtin_inv in H as (c & _ & H).
  destruct H as [(_ & -> & -> & ->) | [(_ & -> & path & H) | H]].
  - repeat split; try tauto. exists []. now rewrite app_nil_r.
  - destruct H as [(d & _ & -> & ->) | (_ & -> & ->)]; simpl.
    + repeat split; try tauto. now exists [EvChdir path].
    + repeat split; try tauto.
      exists [EvChdir path; EvPerror "cd"]. now rewrite <- app_assoc.
  - destruct H as (_ & _ & _ & _ & -> & -> & ->).
    repeat split; try tauto. exists []. now rewrite app_nil_r.
Qed.

Lemma handle_builtin_frame_witness :
  w_stdin (set_cwd "/tmp" (log (EvChdir (Some "/tmp")) (demo_world "ls")))
    = w_stdin (demo_world "ls") /\
  w_env (set_cwd "/tmp" (log (EvChdir (Some "/tmp")) (demo_world "ls")))
    = w_env (demo_world "ls") /\
  w_forks (set_cwd "/tmp" (log (EvChdir (Some "/tmp")) (demo_world "ls")))
    = w_forks (demo_world "ls") /\
  (1 = 1 \/ 1 = 0) /\
  (HANDLED <> HANDLED ->
   w_cwd (set_cwd "/tmp" (log (EvChdir (Some "/tmp")) (demo_world "ls")))
     = w_cwd (demo_world "ls") /\ 1 = 1) /\
  exists evs,
    w_trace (set_cwd "/tmp" (log (EvChdir (Some "/tmp")) (demo_world "ls")))
      = (w_trace (demo_world "ls") ++ evs)%list /\
    spawn_count evs = 0%nat.
Proof.
  apply (handle_builtin_frame demo_os (arg_vector ["cd"; "/tmp"]) 1
           (demo_world "ls")).
  reflexivity.
Defined.

Lemma execute_world (sys : os) (args : list ptr) (background : Z) (w : world) :
  execute sys args background w =
  Ret (World (input_after_fork w) (w_env w) (w_cwd w) (tail (w_forks w))
         (w_trace w ++ [EvFork; fork_outcome background w])).
Proof.
  unfold execute, fork, after_fork, fork_outcome, input_after_fork.
  destruct w as [i e c fs t]. simpl.
  destruct fs as [|[|p|p input] rs]; simpl; unfold log, set_forks; simpl;
    rewrite <- ?app_assoc; try reflexivity;
    destruct (background =? 0); simpl; now rewrite <- ?app_assoc.
Qed.



End DispatcherProperties.

(** ** The read loop *)

Section LoopProperties.
Import CStr Spec.

(** X11. A line that holds only the newline is skipped: the prompt is
    shown again and nothing else happens, so the shell behaves on the
    remaining input as it would have from the start. *)
Theorem blank_line_skipped (sys : os) (w : world) (rest : string) :
  main sys (set_stdin (String LF rest) w) =
  main sys (set_stdin rest (log EvPrompt w)).
Proof. unfold main. simpl. reflexivity. Qed.

Lemma spawn_count_fork_outcome (background : Z) (w : world) :
  spawn_count [EvFork; fork_outcome background w] = 1%nat.
Proof.
  unfold fork_outcome.
  destruct (w_forks w) as [|[|p|p input] rs]; try reflexivity;
    destruct (background =? 0); reflexivity.
Qed.

Lemma loop_body_frame (sys : os) (buf : string) (running : Z) (w : world)
    next w' :
  loop_body sys buf running w = Ret (next, w') ->
  w_env w' = w_env w /\
  exists evs,
    w_trace w' = (w_trace w ++ evs)%list /\
    w_forks w' = drop (spawn_count evs) (w_forks w) /\
    (w_cwd w' = w_cwd w \/ exists path, EvChdir path ∈ evs).
Proof.
  intros H. apply loop_body_inv in H as [(tl & _ & _ & ->) | H].
  { split; [reflexivity|]. exists []. rewrite app_nil_r. auto. }
  destruct H as (args & bg & r & run' & w1 & _ & Hb & H).
  assert (Hw1 : w_env w1 = w_env w /\
            exists evs,
              w_trace w1 = (w_trace w ++ evs)%list /\
              w_forks w1 = w_forks w /\ spawn_count evs = 0%nat /\
              (w_cwd w1 = w_cwd w \/ exists path, EvChdir path ∈ evs)).
  { apply handle_builtin_inv in Hb as (c & _ & Hb).
    destruct Hb as [(_ & _ & _ & ->) | [(_ & _ & path & Hb) | Hb]].
    - split; [reflexivity|]. exists []. rewrite app_nil_r. auto.
    - destruct Hb as [(d & _ & _ & ->) | (_ & _ & ->)]; simpl.
      + split; [reflexivity|]. exists [EvChdir path].
        repeat split; auto. right. exists path. apply list_elem_of_here.
      + split; [reflexivity|]. exists [EvChdir path; EvPerror "cd"].
        rewrite <- app_assoc. repeat split; auto.
    - destruct Hb as (_ & _ & _ & _ & _ & _ & ->).
      split; [reflexivity|]. exists []. rewrite app_nil_r. auto. }
  destruct Hw1 as (Henv & evs & Ht & Hf & Hc & Hcwd).
  destruct H as [(_ & _ & _ & ->) | [(_ & _ & _ & ->) | (_ & _ & He)]].
  - split; [exact Henv|]. exists evs. rewrite Hc. auto.
  - split; [exact Henv|]. exists evs. rewrite Hc. auto.
  - rewrite execute_world in He. injection He as <-. simpl.
    split; [exact Henv|].
    exists (evs ++ [EvFork; fork_outcome bg w1])%list.
    rewrite Ht, <- app_assoc. split; [reflexivity|].
    rewrite spawn_count_app, Hc, spawn_count_fork_outcome, Hf. simpl.
    split; [now destruct (w_forks w)|].
    destruct Hcwd as [Hcwd | (path & Hin)]; [now left|].
    right. exists path. apply elem_of_app. now left.
Qed.

Lemma main_loop_frame (sys : os) (fuel : nat) : forall running w n w',
  main_loop sys fuel running w = Ret (n, w') ->
  w_env w' = w_env w /\
  exists evs,
    w_trace w' = (w_trace w ++ evs)%list /\
    w_forks w' = drop (spawn_count evs) (w_forks w) /\
    (w_cwd w' = w_cwd w \/ exists path, EvChdir path ∈ evs).
Proof.
  induction fuel as [|fuel IH]; intros running w n w' H.
  - simpl in H. destruct (running =? 0); [|discriminate].
    injection H as <- <-. split; [reflexivity|].
    exists []. rewrite app_nil_r. auto.
  - destruct (Z.eq_dec running 0) as [->|Hrun].
    { simpl in H. injection H as <- <-. split; [reflexivity|].
      exists []. rewrite app_nil_r. auto. }
    rewrite main_loop_unfold in H by exact Hrun.
    destruct (getline (log EvPrompt w)) as [[buf|] w1] eqn:Hg.
    + assert (Hw1 : w1 = set_stdin (w_stdin w1) (log EvPrompt w)).
      { unfold getline in Hg. simpl w_stdin in Hg.
        destruct (w_stdin w); [discriminate|].
        destruct (read_line _) as [l r0]. now injection Hg as _ <-. }
      destruct (loop_body sys buf running w1) as [[next w2]| | |] eqn:Hbody;
        simpl in H; try discriminate.
      apply loop_body_frame in Hbody as (He & evs & Ht & Hf & Hc).
      rewrite Hw1 in He, Ht, Hf, Hc. simpl in He, Ht, Hf, Hc.
      assert (Hstep : w_env w2 = w_env w /\
                exists evs0,
                  w_trace w2 = (w_trace w ++ evs0)%list /\
                  w_forks w2 = drop (spawn_count evs0) (w_forks w) /\
                  (w_cwd w2 = w_cwd w \/ exists path, EvChdir path ∈ evs0)).
      { split; [exact He|].
        exists (EvPrompt :: evs). rewrite Ht, <- app_assoc.
        split; [reflexivity|]. split; [exact Hf|].
        destruct Hc as [Hc | (path & Hin)]; [now left|].
        right. exists path. now apply list_elem_of_further. }
      destruct next as [run'|st]; [|now injection H as <- <-].
      apply IH in H as (He' & evs' & Ht' & Hf' & Hc').
      destruct Hstep as (He0 & evs0 & Ht0 & Hf0 & Hc0).
      split; [congruence|].
      exists (evs0 ++ evs')%list. rewrite Ht', Ht0, <- app_assoc.
      split; [reflexivity|]. split.
      * rewrite Hf', Hf0, spawn_count_app. apply drop_drop.
      * destruct Hc' as [Hc' | (path & Hin)].
        -- destruct Hc0 as [Hc0 | (path & Hin)]; [left; congruence|].
           right. exists path. apply elem_of_app. now left.
        -- right. exists path. apply elem_of_app. now right.
    + apply getline_None in Hg as (-> & _). injection H as <- <-. simpl.
      split; [reflexivity|].
      exists [EvPrompt; EvPerror "getLine"]. rewrite <- app_assoc.
      split; [reflexivity|]. split; [reflexivity | now left].
Qed.

(** X14. What a run of [main] leaves behind: the environment is the one it
    started with, the trace has only grown, each [fork] in the new events
    has used up one answer of the system, and the working directory has
    changed only if [chdir] was called. *)
Theorem main_preserves (sys : os) (w : world) (n : Z) (w' : world) :
  main sys w = Ret (n, w') ->
  w_env w' = w_env w /\
  exists evs,
    w_trace w' = (w_trace w ++ evs)%list /\
    w_forks w' = drop (spawn_count evs) (w_forks w) /\
    (w_cwd w' = w_cwd w \/ exists path, EvChdir path ∈ evs).
Proof. apply main_loop_frame. Qed.

Lemma main_preserves_witness :
  w_env eof_world = w_env (demo_world ("cd /tmp" ++ nl ++ "ls")) /\
  exists evs,
    w_trace eof_world
    = (w_trace (demo_world ("cd /tmp" ++ nl ++ "ls")) ++ evs)%list /\
    w_forks eof_world
    = drop (spawn_count evs) (w_forks (demo_world ("cd /tmp" ++ nl ++ "ls"))) /\
    (w_cwd eof_world = w_cwd (demo_world ("cd /tmp" ++ nl ++ "ls"))
     \/ exists path, EvChdir path ∈ evs).
Proof.
  apply (main_preserves demo_os (demo_world ("cd /tmp" ++ nl ++ "ls")) 1).
  vm_compute. reflexivity.
Defined.

Lemma chomp_app (a b : string) :
  b <> EmptyString -> chomp (a ++ b) = a ++ chomp b.
Proof.
  intros Hb. induction a as [|c a IH]; [reflexivity|].
  rewrite !append_cons. destruct (a ++ b) as [|d x] eqn:E.
  - destruct a; [rewrite append_nil_l in E; congruence | discriminate].
  - change (chomp (String c (String d x))) with (String c (chomp (String d x))).
    now rewrite IH.
Qed.

Lemma chomp_no_newline (s : string) : mentions LF s = false -> chomp s = s.
Proof.
  induction s as [|c s IH]; [reflexivity|]. intros H. simpl in H.
  apply orb_false_iff in H as [Hc H]. destruct s as [|d s].
  - simpl. now rewrite Hc.
  - change (chomp (String c (String d s))) with (String c (chomp (String d s))).
    now rewrite IH.
Qed.

Lemma c_str_app_NUL (a x : string) : c_str (a ++ String NUL x) = c_str a.
Proof.
  induction a as [|c a IH]; [reflexivity|].
  rewrite append_cons. simpl. now rewrite IH.
Qed.

(** X15. A NUL byte in a line ends the command: what [getline] has read
    behind it, up to the newline, is never seen by the parser. *)
Theorem nul_cuts_command (sys : os) (pre junk : string) (running : Z)
    (w : world) :
  pre <> EmptyString ->
  mentions LF pre = false ->
  loop_body sys (pre ++ String NUL junk) running w =
  loop_body sys pre running w.
Proof.
  intros Hne Hlf.
  assert (Hcmd : c_str (chomp (pre ++ String NUL junk)) = c_str (chomp pre)).
  { rewrite chomp_app by discriminate. rewrite (chomp_no_newline pre Hlf).
    destruct junk as [|d junk].
    - apply c_str_app_NUL.
    - change (chomp (String NUL (String d junk)))
        with (String NUL (chomp (String d junk))).
      apply c_str_app_NUL. }
  destruct pre as [|c pre]; [congruence|]. rewrite append_cons in *.
  unfold loop_body. now rewrite Hcmd.
Qed.

Lemma nul_cuts_command_witness :
  loop_body demo_os ("cd /tmp" ++ String NUL (" /nowhere" ++ nl)) 1
    (demo_world EmptyString) =
  loop_body demo_os "cd /tmp" 1 (demo_world EmptyString).
Proof.
  apply (nul_cuts_command demo_os "cd /tmp" (" /nowhere" ++ nl) 1
           (demo_world EmptyString)).
  - discriminate.
  - reflexivity.
Defined.

(** X16. Every line that has no token in front of its first marker, be it
    spaces only, a marker only or a marker followed by anything, makes the
    loop hand an empty command to the dispatcher, which faults on its
    missing first token. *)
Theorem line_without_command_faults (sys : os) (ch : ascii) (tl : string)
    (running : Z) (w : world) :
  Ascii.eqb ch LF = false ->
  before_marker (tokens (c_str (chomp (String ch tl)))) = [] ->
  loop_body sys (String ch tl) running w = Fault NullDeref.
Proof.
  intros Hch Hkept. unfold loop_body. rewrite Hch.
  rewrite ParseFacts.parse_spec. cbv zeta. rewrite Hkept.
  case_decide; [|unfold MAX_ARGS in *; simpl in *; lia]. reflexivity.
Qed.

Lemma line_without_command_faults_witness :
  loop_body demo_os ("   # rm -rf /tmp/x" ++ nl) 1 (demo_world EmptyString)
  = Fault NullDeref.
Proof.
  apply (line_without_command_faults demo_os " " ("  # rm -rf /tmp/x" ++ nl)
           1 (demo_world EmptyString)).
  - reflexivity.
  - reflexivity.
Defined.

End LoopProperties.
